(** * Block-cache eviction/miss log analyser ([src/main.rs]) in Rocq

    A shallow embedding of [parse] and of the sorting, indexing and
    correlation loops of [main].

    - A text block (a [&str]) is its UTF-8 bytes, one [ascii] (an 8-bit
      byte) per byte; the regex
      [SstableBlockIndex \{ sst_id: (\d+), block_idx: (\d+) \}, SystemTime \{ tv_sec: (\d+), tv_nsec: (\d+) \}]
      is matched by a hand-written matcher with the leftmost,
      non-overlapping semantics of [Regex::captures_iter].  The regex
      crate's [\d] is Unicode-aware: it matches every decimal digit
      character (General_Category Nd), not only ['0'..'9'].  The text is
      valid UTF-8, and the matcher decodes the multi-byte digits it meets
      under that assumption.
    - [SystemTime] is the Unix representation of the standard library: a
      [timespec] with a signed 64-bit [tv_sec] and [tv_nsec] below 10^9,
      ordered lexicographically; [Duration] is a pair (seconds as u64,
      nanoseconds below 10^9).
    - A panic ([unwrap] on an [Err], an overflow in [Duration::new] or in
      [SystemTime + Duration]) is an [Err] of the result type [res].
    - The [HashMap<(u64, u64), SystemTime>] is a [gmap]; the lines written to
      the duration file are lists of segments: the literal parts of the
      format strings are kept verbatim, the [Debug] rendering of a [Data] or
      [Duration] and the local-time rendering of a [SystemTime] are kept as
      the values they render.
    - Not modelled: reading the CSV files, the [out] file, the local-time
      rendering of times (lines 98-106 and 135-143, whose
      [timestamp_opt(..).unwrap()] also panics for times beyond chrono's
      date range) and the progress messages.  The three counters are
      unbounded integers; the source's are [i32], and the properties about
      their values assume they stay below 2^31. *)

From Stdlib Require Import ZArith Ascii String Sorted.
From stdpp Require Import base gmap list strings.

Open Scope Z_scope.

(** ** Results: [Ok] or a panic *)

Inductive panic :=
  | ParseIntError           (** [cap[i].parse::<u64>().unwrap()] *)
  | DurationNewOverflow     (** ["overflow in Duration::new"] *)
  | SystemTimeAddOverflow   (** ["overflow when adding duration to instant"] *)
  | SystemTimeErr.          (** [duration_since(..).unwrap()] on an [Err] *)

Inductive res (A : Type) := Ok (a : A) | Err (e : panic).
Arguments Ok {A} a.
Arguments Err {A} e.

Global Instance res_ret : MRet res := fun A a => Ok a.
Global Instance res_bind : MBind res :=
  fun A B f m => match m with Ok a => f a | Err e => Err e end.

(** ** Machine integers *)

Definition NANOS_PER_SEC : Z := 1000000000.
Definition U32_MAX : Z := 2 ^ 32 - 1.
Definition U64_MAX : Z := 2 ^ 64 - 1.
Definition I64_MAX : Z := 2 ^ 63 - 1.
Definition I32_MAX : Z := 2 ^ 31 - 1.

(** [x as u64] for a value computed in 64-bit two's complement. *)
Definition wrap_u64 (x : Z) : Z := x mod 2 ^ 64.

(** ** [std::time::Duration] *)

Record Duration := mkDuration { secs : Z; nanos : Z }.

(** [Duration::new(secs, nanos)]: carries whole seconds out of [nanos],
    panicking when the carry overflows the u64 seconds. *)
Definition duration_new (secs nanos : Z) : res Duration :=
  if nanos <? NANOS_PER_SEC then Ok (mkDuration secs nanos)
  else
    let s := secs + nanos / NANOS_PER_SEC in
    if s <=? U64_MAX then Ok (mkDuration s (nanos mod NANOS_PER_SEC))
    else Err DurationNewOverflow.

(** [Duration::as_secs_f64() < 10.0].  The float is
    [secs as f64 + nanos as f64 / 1e9] with [nanos < 10^9]: it is below
    [10.0] exactly when [secs < 10] (the largest such value, about
    [9.999999999], is far from [10.0] at double precision, and [secs >= 10]
    gives at least [10.0]); this is the exact comparison below. *)
Definition secs_f64_lt_10 (d : Duration) : bool :=
  secs d * NANOS_PER_SEC + nanos d <? 10 * NANOS_PER_SEC.

(** ** [std::time::SystemTime] (Unix [Timespec]) *)

Record SystemTime := mkTime { tv_sec : Z; tv_nsec : Z }.

Definition UNIX_EPOCH : SystemTime := mkTime 0 0.

(** The derived [Ord] of [Timespec]: lexicographic on [(tv_sec, tv_nsec)]. *)
Definition ts_cmp (a b : SystemTime) : comparison :=
  match Z.compare (tv_sec a) (tv_sec b) with
  | Eq => Z.compare (tv_nsec a) (tv_nsec b)
  | c => c
  end.

Definition ts_leb (a b : SystemTime) : bool :=
  match ts_cmp a b with Gt => false | _ => true end.
Definition ts_ltb (a b : SystemTime) : bool :=
  match ts_cmp a b with Lt => true | _ => false end.

(** [Timespec::checked_add_duration], as used by [SystemTime + Duration]
    (which panics on [None]). *)
Definition add_duration (t : SystemTime) (d : Duration) : res SystemTime :=
  let s := tv_sec t + secs d in
  if I64_MAX <? s then Err SystemTimeAddOverflow
  else
    let ns := nanos d + tv_nsec t in
    if NANOS_PER_SEC <=? ns then
      if I64_MAX <? s + 1 then Err SystemTimeAddOverflow
      else Ok (mkTime (s + 1) (ns - NANOS_PER_SEC))
    else Ok (mkTime s ns).

(** The [self >= other] branch of [Timespec::sub_timespec]. *)
Definition sub_ge (a b : SystemTime) : res Duration :=
  if tv_nsec b <=? tv_nsec a then
    duration_new (wrap_u64 (tv_sec a - tv_sec b)) (tv_nsec a - tv_nsec b)
  else
    duration_new (wrap_u64 (tv_sec a - tv_sec b - 1))
                 (tv_nsec a + NANOS_PER_SEC - tv_nsec b).

(** [Timespec::sub_timespec]: [inl d] is [Ok(d)], [inr d] is [Err(d)].
    In the [self < other] case the recursive call [other.sub_timespec(self)]
    takes the [>=] branch. *)
Definition sub_timespec (a b : SystemTime) : res (Duration + Duration) :=
  if ts_leb b a then d ← sub_ge a b; Ok (inl d)
  else d ← sub_ge b a; Ok (inr d).

(** [a.duration_since(b).unwrap()]. *)
Definition duration_since_unwrap (a b : SystemTime) : res Duration :=
  r ← sub_timespec a b;
  match r with inl d => Ok d | inr _ => Err SystemTimeErr end.

(** ** Text matching *)

Fixpoint starts_with (p s : string) : bool :=
  match p, s with
  | EmptyString, _ => true
  | String a p', String b s' => Ascii.eqb a b && starts_with p' s'
  | _, _ => false
  end.

(** [s.contains(p)]. *)
Fixpoint contains (s p : string) : bool :=
  starts_with p s ||
  match s with EmptyString => false | String _ s' => contains s' p end.

Fixpoint strip_prefix (p s : string) : option string :=
  match p, s with
  | EmptyString, _ => Some s
  | String a p', String b s' => if Ascii.eqb a b then strip_prefix p' s' else None
  | _, _ => None
  end.

(** An ASCII decimal digit ['0'..'9']. *)
Definition is_digit (c : ascii) : bool :=
  (48 <=? nat_of_ascii c)%nat && (nat_of_ascii c <=? 57)%nat.

Definition byte (c : ascii) : Z := Z.of_nat (nat_of_ascii c).

(** A UTF-8 continuation byte [10xxxxxx]. *)
Definition is_cont (c : ascii) : bool := (128 <=? byte c) && (byte c <? 192).

(** The code point of a two-, three- or four-byte UTF-8 sequence. *)
Definition cp2 (b0 b1 : ascii) : Z := (byte b0 - 192) * 64 + (byte b1 - 128).
Definition cp3 (b0 b1 b2 : ascii) : Z :=
  ((byte b0 - 224) * 64 + (byte b1 - 128)) * 64 + (byte b2 - 128).
Definition cp4 (b0 b1 b2 b3 : ascii) : Z :=
  (((byte b0 - 240) * 64 + (byte b1 - 128)) * 64 + (byte b2 - 128)) * 64 + (byte b3 - 128).

(** The code points of General_Category=Decimal_Number (Nd) in Unicode
    15.0, the class the regex crate's Unicode-aware [\d] matches, as
    inclusive ranges. *)
Definition ND_RANGES : list (Z * Z) :=
  [(48, 57); (1632, 1641); (1776, 1785); (1984, 1993); (2406, 2415); (2534, 2543);
   (2662, 2671); (2790, 2799); (2918, 2927); (3046, 3055); (3174, 3183); (3302, 3311);
   (3430, 3439); (3558, 3567); (3664, 3673); (3792, 3801); (3872, 3881); (4160, 4169);
   (4240, 4249); (6112, 6121); (6160, 6169); (6470, 6479); (6608, 6617); (6784, 6793);
   (6800, 6809); (6992, 7001); (7088, 7097); (7232, 7241); (7248, 7257); (42528, 42537);
   (43216, 43225); (43264, 43273); (43472, 43481); (43504, 43513); (43600, 43609); (44016, 44025);
   (65296, 65305); (66720, 66729); (68912, 68921); (69734, 69743); (69872, 69881); (69942, 69951);
   (70096, 70105); (70384, 70393); (70736, 70745); (70864, 70873); (71248, 71257); (71360, 71369);
   (71472, 71481); (71904, 71913); (72016, 72025); (72784, 72793); (73040, 73049); (73120, 73129);
   (73552, 73561); (92768, 92777); (92864, 92873); (93008, 93017); (120782, 120831); (123200, 123209);
   (123632, 123641); (124144, 124153); (125264, 125273); (130032, 130041)].

Definition is_nd (cp : Z) : bool :=
  existsb (fun '(lo, hi) => (lo <=? cp) && (cp <=? hi)) ND_RANGES.

(** [\d*] at the front of [s]: the longest run of decimal-digit characters
    (one- to four-byte UTF-8 sequences of an Nd code point; the only
    one-byte ones are ['0'..'9']), and what follows it. *)
Fixpoint take_digits (s : string) : string * string :=
  match s with
  | EmptyString => (EmptyString, EmptyString)
  | String b0 s1 =>
      if is_digit b0 then
        let '(d, r) := take_digits s1 in (String b0 d, r)
      else
        match s1 with
        | EmptyString => (EmptyString, s)
        | String b1 s2 =>
            if (192 <=? byte b0) && (byte b0 <? 224) && is_cont b1 && is_nd (cp2 b0 b1) then
              let '(d, r) := take_digits s2 in (String b0 (String b1 d), r)
            else
              match s2 with
              | EmptyString => (EmptyString, s)
              | String b2 s3 =>
                  if (224 <=? byte b0) && (byte b0 <? 240) && is_cont b1 && is_cont b2 &&
                     is_nd (cp3 b0 b1 b2) then
                    let '(d, r) := take_digits s3 in (String b0 (String b1 (String b2 d)), r)
                  else
                    match s3 with
                    | EmptyString => (EmptyString, s)
                    | String b3 s4 =>
                        if (240 <=? byte b0) && (byte b0 <? 248) && is_cont b1 &&
                           is_cont b2 && is_cont b3 && is_nd (cp4 b0 b1 b2 b3) then
                          let '(d, r) := take_digits s4 in
                          (String b0 (String b1 (String b2 (String b3 d))), r)
                        else (EmptyString, s)
                    end
              end
        end
  end.

(** [(\d+)]: every literal that follows a group in the pattern starts with
    a non-digit, so the greedy run is the only way the group can match. *)
Definition digits1 (s : string) : option (string * string) :=
  match take_digits s with
  | (EmptyString, _) => None
  | dr => Some dr
  end.

Definition LIT1 : string := "SstableBlockIndex { sst_id: ".
Definition LIT2 : string := ", block_idx: ".
Definition LIT3 : string := " }, SystemTime { tv_sec: ".
Definition LIT4 : string := ", tv_nsec: ".
Definition LIT5 : string := " }".

(** The four capture groups of one match. *)
Record Caps := mkCaps { cap_sst : string; cap_blk : string;
                        cap_sec : string; cap_nsec : string }.

(** A match of the pattern starting exactly at the front of [s], with the
    text after it. *)
Definition match_at (s : string) : option (Caps * string) :=
  r1 ← strip_prefix LIT1 s;
  '(d1, r2) ← digits1 r1;
  r3 ← strip_prefix LIT2 r2;
  '(d2, r4) ← digits1 r3;
  r5 ← strip_prefix LIT3 r4;
  '(d3, r6) ← digits1 r5;
  r7 ← strip_prefix LIT4 r6;
  '(d4, r8) ← digits1 r7;
  r9 ← strip_prefix LIT5 r8;
  Some (mkCaps d1 d2 d3 d4, r9).

(** [re.captures_iter(s)]: the leftmost match, then the search resumes
    after it; a position where no match starts is skipped.  Every round
    consumes at least one character, so [String.length s] rounds suffice. *)
Fixpoint captures_fuel (fuel : nat) (s : string) : list Caps :=
  match fuel with
  | O => []
  | S f =>
      match s with
      | EmptyString => []
      | String _ s' =>
          match match_at s with
          | Some (c, r) => c :: captures_fuel f r
          | None => captures_fuel f s'
          end
      end
  end.

Definition captures (s : string) : list Caps := captures_fuel (String.length s) s.

(** ** [parse] *)

Inductive Op := Evicted | Missed.

Global Instance Op_eq_dec : EqDecision Op.
Proof. solve_decision. Defined.

Record Data := mkData { sst : Z; blk : Z }.

(** One element of [records]: [(Data, SystemTime, Op)]. *)
Definition Rec : Type := Data * SystemTime * Op.

Definition rec_data (r : Rec) : Data := r.1.1.
Definition rec_time (r : Rec) : SystemTime := r.1.2.
Definition rec_op (r : Rec) : Op := r.2.

Fixpoint dec_value_acc (acc : Z) (s : string) : Z :=
  match s with
  | EmptyString => acc
  | String c s' => dec_value_acc (acc * 10 + (Z.of_nat (nat_of_ascii c) - 48)) s'
  end.

(** The value of a decimal digit string. *)
Definition dec_value (s : string) : Z := dec_value_acc 0 s.

(** Whether [d.parse::<uN>()] succeeds: [uN::from_str] reads the bytes
    of [d] and accepts only ASCII digits ([InvalidDigit] otherwise, e.g.
    for the non-ASCII digits [\d] also matches), and a value up to [max]
    ([PosOverflow] otherwise). *)
Definition uint_fits (max : Z) (d : string) : bool :=
  forallb is_digit (list_ascii_of_string d) && (dec_value d <=? max).

(** [d.parse::<uN>().unwrap()]. *)
Definition parse_uint (max : Z) (d : string) : res Z :=
  if uint_fits max d then Ok (dec_value d) else Err ParseIntError.

Definition EVICTED_MARKER : string := "========== EVICTED DATA BLOCKS ==========".
Definition MISSED_MARKER : string := "========== MISSED DATA BLOCKS ==========".

(** The [op] chosen at the top of [parse]; [None] is the early
    [return vec![]]. *)
Definition section_op (s : string) : option Op :=
  if contains s EVICTED_MARKER then Some Evicted
  else if contains s MISSED_MARKER then Some Missed
  else None.

(** The body of the [for cap in re.captures_iter(s)] loop. *)
Definition parse_cap (op : Op) (c : Caps) : res Rec :=
  sst ← parse_uint U64_MAX (cap_sst c);
  blk ← parse_uint U64_MAX (cap_blk c);
  tv_sec ← parse_uint U64_MAX (cap_sec c);
  tv_nsec ← parse_uint U32_MAX (cap_nsec c);
  d ← duration_new tv_sec tv_nsec;
  system_time ← add_duration UNIX_EPOCH d;
  Ok (mkData sst blk, system_time, op).

Fixpoint parse_caps (op : Op) (cs : list Caps) : res (list Rec) :=
  match cs with
  | [] => Ok []
  | c :: cs' => r ← parse_cap op c; rs ← parse_caps op cs'; Ok (r :: rs)
  end.

Definition parse (s : string) : res (list Rec) :=
  match section_op s with
  | None => Ok []
  | Some op => parse_caps op (captures s)
  end.

(** ** [records.sort_by_key(|(_, time, _)| Reverse(time))]

    [sort_by_key] is a stable sort, and a stable sort's output is fixed by
    the key order alone; it is written here as insertion sort.  [x] goes in
    front of [y] when [Reverse(x.time) <= Reverse(y.time)], i.e. when
    [y.time <= x.time]; since [x] came first in the input, equal keys keep
    their order. *)
Fixpoint insert_rev (x : Rec) (l : list Rec) : list Rec :=
  match l with
  | [] => [x]
  | y :: l' =>
      if ts_leb (rec_time y) (rec_time x) then x :: l else y :: insert_rev x l'
  end.

Fixpoint sort_by_rev_time (l : list Rec) : list Rec :=
  match l with
  | [] => []
  | x :: l' => insert_rev x (sort_by_rev_time l')
  end.

(** ** [evicted_times] *)

Definition key_of (d : Data) : Z * Z := (sst d, blk d).

Abbreviation Index := (gmap (Z * Z) SystemTime).

(** [if *op == Op::Evicted { evicted_times.insert((data.sst, data.blk), *system_time); }] *)
Definition index_step (idx : Index) (r : Rec) : Index :=
  match rec_op r with
  | Evicted => <[key_of (rec_data r) := rec_time r]> idx
  | Missed => idx
  end.

(** The first loop of [main] over the sorted [records] (the writes to the
    [out] file aside). *)
Definition build_index_from (idx : Index) (l : list Rec) : Index :=
  foldl index_step idx l.

Definition evicted_times (records : list Rec) : Index := build_index_from ∅ records.

(** ** Correlation: the second loop of [main] *)

Record Tally := mkTally { long : Z; short : Z; none : Z }.

Definition tally0 : Tally := mkTally 0 0 0.

(** A written line: literal text of the format string, or a value rendered
    in its place. *)
Inductive Seg :=
  | SLit (s : string)
  | SData (d : Data)
  | SDur (d : Duration)
  | SMissTime (t : SystemTime)
  | SNum (n : Z).

Definition Line := list Seg.

(** ["{data:?}, delta: -{duration:?}, miss time: {miss}"] *)
Definition inverted_line (d : Data) (dur : Duration) (t : SystemTime) : Line :=
  [SData d; SLit ", delta: -"; SDur dur; SLit ", miss time: "; SMissTime t].

(** ["{data:?}, delta: {duration:?}, miss time: {miss} {suffix}"] *)
Definition resolved_line (d : Data) (dur : Duration) (t : SystemTime)
  (suffix : string) : Line :=
  [SData d; SLit ", delta: "; SDur dur; SLit ", miss time: "; SMissTime t;
   SLit " "; SLit suffix].

(** ["{:?}, miss time: {miss}, No evicted time found"] *)
Definition none_line (d : Data) (t : SystemTime) : Line :=
  [SData d; SLit ", miss time: "; SMissTime t; SLit ", No evicted time found"].

(** ["long: {long}, short: {short}, none: {none}"] *)
Definition summary_line (tl : Tally) : Line :=
  [SLit "long: "; SNum (long tl); SLit ", short: "; SNum (short tl);
   SLit ", none: "; SNum (none tl)].

Definition SHORT_SUFFIX : string := "!!!!!!!!!!".

(** One iteration of [for (data, system_time, op) in &records]; the state
    is the three counters and the lines written so far. *)
Definition correlate_one (evicted : Index) (st : Tally * list Line) (r : Rec)
  : res (Tally * list Line) :=
  let '(tl, out) := st in
  let '(data, system_time, op) := r in
  match op with
  | Missed =>
      match evicted !! key_of data with
      | Some evicted_time =>
          if ts_ltb system_time evicted_time then
            duration ← duration_since_unwrap evicted_time system_time;
            Ok (tl, out ++ [inverted_line data duration system_time])
          else
            duration ← duration_since_unwrap system_time evicted_time;
            if secs_f64_lt_10 duration then
              Ok (mkTally (long tl) (short tl + 1) (none tl),
                  out ++ [resolved_line data duration system_time SHORT_SUFFIX])
            else
              Ok (mkTally (long tl + 1) (short tl) (none tl),
                  out ++ [resolved_line data duration system_time ""])
      | None =>
          Ok (mkTally (long tl) (short tl) (none tl + 1),
              out ++ [none_line data system_time])
      end
  | Evicted => Ok st
  end.

Fixpoint correlate (evicted : Index) (st : Tally * list Line) (l : list Rec)
  : res (Tally * list Line) :=
  match l with
  | [] => Ok st
  | r :: l' => st' ← correlate_one evicted st r; correlate evicted st' l'
  end.

(** The code's method: the complete index first, then the correlation pass
    over the same sorted records. *)
Definition two_pass (records : list Rec) : res (Tally * list Line) :=
  correlate (evicted_times records) (tally0, []) records.

(** The single scan described in the spec's overview: each record is
    correlated against the index built from the records before it, then
    added to the index. *)
Fixpoint combined_scan_from (idx : Index) (st : Tally * list Line) (l : list Rec)
  : res (Tally * list Line) :=
  match l with
  | [] => Ok st
  | r :: l' =>
      st' ← correlate_one idx st r; combined_scan_from (index_step idx r) st' l'
  end.

Definition combined_scan (records : list Rec) : res (Tally * list Line) :=
  combined_scan_from ∅ (tally0, []) records.

(** ** [main], from the parsed text blocks on *)

Fixpoint parse_all (blocks : list string) : res (list Rec) :=
  match blocks with
  | [] => Ok []
  | s :: bs => rs ← parse s; rest ← parse_all bs; Ok (rs ++ rest)
  end.

(** The sorted records, the index, the counters and every line of the
    duration file. *)
Definition main_model (blocks : list string)
  : res (list Rec * Index * Tally * list Line) :=
  records ← parse_all blocks;
  let records := sort_by_rev_time records in
  let evicted := evicted_times records in
  '(tl, out) ← correlate evicted (tally0, []) records;
  Ok (records, evicted, tl, out ++ [summary_line tl]).

(** ** Properties used by the claims *)

(** The earliest Evicted record for key [k] in [l] has time [t]. *)
Definition earliest_eviction (l : list Rec) (k : Z * Z) (t : SystemTime) : Prop :=
  (exists r, In r l /\ rec_op r = Evicted /\ key_of (rec_data r) = k /\ rec_time r = t) /\
  (forall r, In r l -> rec_op r = Evicted -> key_of (rec_data r) = k ->
             ts_leb t (rec_time r) = true).

(** The invariant of the standard library's Unix [Timespec] for times at or
    after [UNIX_EPOCH], which every [SystemTime] of [main] is. *)
Definition valid_time (t : SystemTime) : Prop :=
  0 <= tv_sec t <= I64_MAX /\ 0 <= tv_nsec t < NANOS_PER_SEC.

(** Nanoseconds since the epoch, and the length of a [Duration] in
    nanoseconds. *)
Definition time_ns (t : SystemTime) : Z := tv_sec t * NANOS_PER_SEC + tv_nsec t.
Definition dur_ns (d : Duration) : Z := secs d * NANOS_PER_SEC + nanos d.

Definition index_valid (idx : Index) : Prop :=
  forall k t, idx !! k = Some t -> valid_time t.

Definition all_digits (s : string) : Prop :=
  forall c, In c (list_ascii_of_string s) -> is_digit c = true.

Definition caps_digits (c : Caps) : Prop :=
  all_digits (cap_sst c) /\ all_digits (cap_blk c) /\
  all_digits (cap_sec c) /\ all_digits (cap_nsec c).

(** Every captured field parses as its integer type and the time
    [tv_sec + tv_nsec / 10^9] (after [Duration::new]'s carry) fits the
    signed 64-bit seconds of a [SystemTime]. *)
Definition caps_fit (c : Caps) : bool :=
  uint_fits U64_MAX (cap_sst c) && uint_fits U64_MAX (cap_blk c) &&
  uint_fits U64_MAX (cap_sec c) && uint_fits U32_MAX (cap_nsec c) &&
  (dec_value (cap_sec c) + dec_value (cap_nsec c) / NANOS_PER_SEC <=? I64_MAX).

(** The record a match stands for: key and time read off the digits. *)
Definition cap_record (op : Op) (c : Caps) : Rec :=
  (mkData (dec_value (cap_sst c)) (dec_value (cap_blk c)),
   mkTime (dec_value (cap_sec c) + dec_value (cap_nsec c) / NANOS_PER_SEC)
          (dec_value (cap_nsec c) mod NANOS_PER_SEC),
   op).

(** No Missed record of [l] is followed, later in [l], by an Evicted record
    of the same key. *)
Fixpoint no_later_eviction (l : list Rec) : Prop :=
  match l with
  | [] => True
  | r :: l' =>
      (rec_op r = Missed ->
       forall r', In r' l' -> rec_op r' = Evicted -> key_of (rec_data r') <> key_of (rec_data r)) /\
      no_later_eviction l'
  end.

(** Each captured field fits its integer type: it is a run of ASCII
    digits whose value fits u64 for [sst_id], [block_idx] and [tv_sec],
    u32 for [tv_nsec]. *)
Definition fields_fit (c : Caps) : bool :=
  uint_fits U64_MAX (cap_sst c) && uint_fits U64_MAX (cap_blk c) &&
  uint_fits U64_MAX (cap_sec c) && uint_fits U32_MAX (cap_nsec c).

(** The text of one event line as the logs print it. *)
Definition event_line (sst_id block_idx sec nsec : string) : string :=
  String.append LIT1 (String.append sst_id (String.append LIT2
    (String.append block_idx (String.append LIT3 (String.append sec
      (String.append LIT4 (String.append nsec LIT5))))))).

(** What the correlation loop does with a record, given the index. *)
Definition unmatched_b (idx : Index) (r : Rec) : bool :=
  match rec_op r, idx !! key_of (rec_data r) with
  | Missed, None => true
  | _, _ => false
  end.

Definition resolved_b (idx : Index) (r : Rec) : bool :=
  match rec_op r, idx !! key_of (rec_data r) with
  | Missed, Some te => ts_leb te (rec_time r)
  | _, _ => false
  end.

Definition missed_b (r : Rec) : bool :=
  match rec_op r with Missed => true | Evicted => false end.

Definition count_b (f : Rec -> bool) (l : list Rec) : nat :=
  length (List.filter f l).

(** The Missed records the loop counts as [short] and as [long]. *)
Definition short_b (idx : Index) (r : Rec) : bool :=
  match rec_op r, idx !! key_of (rec_data r) with
  | Missed, Some te =>
      if ts_ltb (rec_time r) te then false
      else match duration_since_unwrap (rec_time r) te with
           | Ok d => secs_f64_lt_10 d
           | Err _ => false
           end
  | _, _ => false
  end.

Definition long_b (idx : Index) (r : Rec) : bool :=
  match rec_op r, idx !! key_of (rec_data r) with
  | Missed, Some te =>
      if ts_ltb (rec_time r) te then false
      else match duration_since_unwrap (rec_time r) te with
           | Ok d => negb (secs_f64_lt_10 d)
           | Err _ => false
           end
  | _, _ => false
  end.

(** The line written for a Missed record [r], given the index: its data
    and miss time, and the delta to the eviction time of its key when
    there is one. *)
Definition missed_line (idx : Index) (r : Rec) (ln : Line) : Prop :=
  let d := rec_data r in
  let t := rec_time r in
  (idx !! key_of d = None /\ ln = none_line d t) \/
  (exists te dur, idx !! key_of d = Some te /\ ts_ltb t te = true /\
     dur_ns dur = time_ns te - time_ns t /\ ln = inverted_line d dur t) \/
  (exists te dur, idx !! key_of d = Some te /\ ts_leb te t = true /\
     dur_ns dur = time_ns t - time_ns te /\
     ln = resolved_line d dur t
            (if dur_ns dur <? 10 * NANOS_PER_SEC then SHORT_SUFFIX else "")).

(** [a] may precede [b] in the sorted records. *)
Definition desc (a b : Rec) : Prop := ts_leb (rec_time b) (rec_time a) = true.

Global Instance SystemTime_eq_dec : EqDecision SystemTime.
Proof. solve_decision. Defined.

(** * Lemmas *)

(** ** The order on [SystemTime] *)

Lemma ts_leb_iff (a b : SystemTime) :
  ts_leb a b = true <->
  tv_sec a < tv_sec b \/ (tv_sec a = tv_sec b /\ tv_nsec a <= tv_nsec b).
Proof.
  unfold ts_leb, ts_cmp.
  destruct (Z.compare_spec (tv_sec a) (tv_sec b));
    [destruct (Z.compare_spec (tv_nsec a) (tv_nsec b)) |..];
    split; intros; try lia; try congruence.
Qed.

Lemma ts_ltb_iff (a b : SystemTime) :
  ts_ltb a b = true <->
  tv_sec a < tv_sec b \/ (tv_sec a = tv_sec b /\ tv_nsec a < tv_nsec b).
Proof.
  unfold ts_ltb, ts_cmp.
  destruct (Z.compare_spec (tv_sec a) (tv_sec b));
    [destruct (Z.compare_spec (tv_nsec a) (tv_nsec b)) |..];
    split; intros; try lia; try congruence.
Qed.

Ltac ts_order :=
  repeat match goal with
  | H : ts_leb _ _ = true |- _ => apply ts_leb_iff in H
  | H : ts_leb _ _ = false |- _ =>
      apply not_true_iff_false in H; rewrite ts_leb_iff in H
  | H : ts_ltb _ _ = true |- _ => apply ts_ltb_iff in H
  | H : ts_ltb _ _ = false |- _ =>
      apply not_true_iff_false in H; rewrite ts_ltb_iff in H
  | |- ts_leb _ _ = true => apply ts_leb_iff
  | |- ts_ltb _ _ = true => apply ts_ltb_iff
  end; lia.

Lemma ts_leb_refl (a : SystemTime) : ts_leb a a = true.
Proof. ts_order. Qed.

Lemma ts_leb_trans (a b c : SystemTime) :
  ts_leb a b = true -> ts_leb b c = true -> ts_leb a c = true.
Proof. intros; ts_order. Qed.

Lemma ts_leb_total (a b : SystemTime) :
  ts_leb a b = false -> ts_leb b a = true.
Proof. intros; ts_order. Qed.

Lemma ts_leb_antisym (a b : SystemTime) :
  ts_leb a b = true -> ts_leb b a = true -> a = b.
Proof.
  destruct a as [sa na], b as [sb nb]; simpl; intros H1 H2.
  apply ts_leb_iff in H1; apply ts_leb_iff in H2; simpl in *.
  assert (sa = sb) by lia; assert (na = nb) by lia; subst; reflexivity.
Qed.

Lemma ts_ltb_leb (a b : SystemTime) : ts_ltb a b = negb (ts_leb b a).
Proof.
  destruct (ts_ltb a b) eqn:E1, (ts_leb b a) eqn:E2; simpl; try reflexivity;
    exfalso; ts_order.
Qed.

(** ** The sort *)

Lemma desc_trans : Transitive desc.
Proof. unfold desc; intros a b c H1 H2; eapply ts_leb_trans; eauto. Qed.

Lemma insert_rev_perm (x : Rec) (l : list Rec) : Permutation (insert_rev x l) (x :: l).
Proof.
  induction l as [|y l IH]; simpl; [reflexivity|].
  destruct (ts_leb (rec_time y) (rec_time x)); [reflexivity|].
  rewrite IH. apply perm_swap.
Qed.

Lemma sort_perm (l : list Rec) : Permutation (sort_by_rev_time l) l.
Proof.
  induction l as [|x l IH]; simpl; [reflexivity|].
  rewrite insert_rev_perm, IH. reflexivity.
Qed.

Lemma insert_rev_hdrel (a x : Rec) (l : list Rec) :
  HdRel desc a l -> desc a x -> HdRel desc a (insert_rev x l).
Proof.
  destruct l as [|y l]; simpl; intros Hl Hx; [constructor; exact Hx|].
  destruct (ts_leb (rec_time y) (rec_time x)); constructor; [exact Hx|].
  exact (HdRel_inv Hl).
Qed.

Lemma insert_rev_sorted (x : Rec) (l : list Rec) :
  Sorted desc l -> Sorted desc (insert_rev x l).
Proof.
  induction l as [|y l IH]; simpl; intros Hs; [repeat constructor|].
  destruct (ts_leb (rec_time y) (rec_time x)) eqn:E.
  - constructor; [exact Hs | constructor; exact E].
  - apply Sorted_inv in Hs as [Hs Hh].
    constructor; [apply IH, Hs|].
    apply insert_rev_hdrel; [exact Hh|].
    unfold desc; apply ts_leb_total, E.
Qed.

Lemma sort_sorted (l : list Rec) : Sorted desc (sort_by_rev_time l).
Proof.
  induction l as [|x l IH]; simpl; [constructor|].
  apply insert_rev_sorted, IH.
Qed.

Lemma Sorted_lookup_adjacent {A} (R : A -> A -> Prop) (l : list A) (i : nat) (a b : A) :
  Sorted R l -> l !! i = Some a -> l !! S i = Some b -> R a b.
Proof.
  revert i; induction l as [|x l IH]; intros i Hs Ha Hb; [discriminate|].
  apply Sorted_inv in Hs as [Hs Hh].
  destruct i as [|i]; simpl in *.
  - injection Ha as <-. destruct l as [|y l]; [discriminate|].
    simpl in Hb; injection Hb as <-. exact (HdRel_inv Hh).
  - exact (IH i Hs Ha Hb).
Qed.

Lemma filter_insert_rev (t : SystemTime) (x : Rec) (l : list Rec) :
  filter (fun r => rec_time r = t) (insert_rev x l) =
  if decide (rec_time x = t) then x :: filter (fun r => rec_time r = t) l
  else filter (fun r => rec_time r = t) l.
Proof.
  induction l as [|y l IH]; simpl.
  - rewrite filter_cons, filter_nil. reflexivity.
  - destruct (ts_leb (rec_time y) (rec_time x)) eqn:E.
    + rewrite filter_cons. reflexivity.
    + rewrite !filter_cons, IH.
      destruct (decide (rec_time y = t)), (decide (rec_time x = t)); try reflexivity.
      exfalso. subst. rewrite <- e in E. rewrite ts_leb_refl in E. discriminate.
Qed.

(** ** The index *)

Lemma build_index_app (idx : Index) (l1 l2 : list Rec) :
  build_index_from idx (l1 ++ l2) = build_index_from (build_index_from idx l1) l2.
Proof. unfold build_index_from. apply foldl_app. Qed.

Lemma build_index_none (k : Z * Z) (l : list Rec) (idx : Index) :
  (forall r, In r l -> rec_op r = Evicted -> key_of (rec_data r) <> k) ->
  build_index_from idx l !! k = idx !! k.
Proof.
  revert idx; induction l as [|r l IH]; intros idx H; simpl; [reflexivity|].
  rewrite IH by (intros; apply H; simpl; auto).
  unfold index_step. destruct (rec_op r) eqn:E; [|reflexivity].
  apply lookup_insert_ne. apply H; simpl; auto.
Qed.

Lemma build_index_sorted_some (k : Z * Z) (s : list Rec) (idx : Index) :
  Sorted desc s ->
  (exists r, In r s /\ rec_op r = Evicted /\ key_of (rec_data r) = k) ->
  exists r, In r s /\ rec_op r = Evicted /\ key_of (rec_data r) = k /\
    build_index_from idx s !! k = Some (rec_time r) /\
    (forall r', In r' s -> rec_op r' = Evicted -> key_of (rec_data r') = k ->
                ts_leb (rec_time r) (rec_time r') = true).
Proof.
  revert idx; induction s as [|r0 s IH]; intros idx Hs Hex.
  - destruct Hex as (r & [] & _).
  - pose proof (Sorted_extends desc_trans Hs) as Hge.
    rewrite Forall_forall in Hge.
    apply Sorted_inv in Hs as [Hs _].
    destruct (decide (Exists (fun r => rec_op r = Evicted /\ key_of (rec_data r) = k) s))
      as [Hin | Hnot].
    + apply Exists_exists in Hin as (r & Hr & Hop & Hk).
      apply list_elem_of_In in Hr.
      destruct (IH (index_step idx r0) Hs ltac:(eauto))
        as (m & Hm & Hmop & Hmk & Hlk & Hmin).
      exists m; split; [simpl; auto|]. split; [exact Hmop|]. split; [exact Hmk|].
      split; [exact Hlk|].
      intros r' [<- | Hr'] Hop' Hk'; [|auto].
      apply Hge, list_elem_of_In, Hm.
    + assert (Hno : forall r, In r s -> rec_op r = Evicted -> key_of (rec_data r) <> k).
      { intros r Hr Hop Hk. apply Hnot, Exists_exists.
        exists r; split; [apply list_elem_of_In; exact Hr | auto]. }
      destruct Hex as (r & [<- | Hr] & Hop & Hk); [|exfalso; eapply Hno; eauto].
      exists r0; split; [simpl; auto|]. split; [exact Hop|]. split; [exact Hk|].
      split.
      * simpl. rewrite build_index_none by exact Hno.
        unfold index_step; rewrite Hop, Hk. apply lookup_insert_eq.
      * intros r' [<- | Hr'] Hop' Hk'; [apply ts_leb_refl|].
        exfalso; eapply Hno; eauto.
Qed.

(** ** Time arithmetic *)

Lemma sub_ge_ok (a b : SystemTime) :
  valid_time a -> valid_time b -> ts_leb b a = true ->
  exists d, sub_ge a b = Ok d /\ dur_ns d = time_ns a - time_ns b.
Proof.
  unfold valid_time, I64_MAX, NANOS_PER_SEC; intros Ha Hb Hle.
  apply ts_leb_iff in Hle.
  unfold sub_ge, duration_new, wrap_u64, dur_ns, time_ns, NANOS_PER_SEC.
  destruct (Z.leb_spec (tv_nsec b) (tv_nsec a)).
  - rewrite Z.mod_small by lia.
    destruct (Z.ltb_spec (tv_nsec a - tv_nsec b) 1000000000); [|lia].
    eexists; split; [reflexivity|simpl; lia].
  - rewrite Z.mod_small by lia.
    destruct (Z.ltb_spec (tv_nsec a + 1000000000 - tv_nsec b) 1000000000); [|lia].
    eexists; split; [reflexivity|simpl; lia].
Qed.

Lemma duration_since_ok (a b : SystemTime) :
  valid_time a -> valid_time b -> ts_leb b a = true ->
  exists d, duration_since_unwrap a b = Ok d /\ dur_ns d = time_ns a - time_ns b.
Proof.
  intros Ha Hb Hle.
  destruct (sub_ge_ok a b Ha Hb Hle) as (d & Hd & Hns).
  exists d; split; [|exact Hns].
  unfold duration_since_unwrap, sub_timespec. rewrite Hle, Hd. reflexivity.
Qed.

Lemma correlate_one_ok (idx : Index) (st : Tally * list Line) (r : Rec) :
  index_valid idx -> valid_time (rec_time r) ->
  exists st', correlate_one idx st r = Ok st'.
Proof.
  destruct st as [tl out], r as [[data t] op]; unfold rec_time; simpl.
  intros Hidx Ht. destruct op; [eexists; reflexivity|].
  destruct (idx !! key_of data) as [te|] eqn:E; [|eexists; reflexivity].
  pose proof (Hidx _ _ E) as Hte.
  destruct (ts_ltb t te) eqn:Hlt.
  - destruct (duration_since_ok te t Hte Ht ltac:(ts_order)) as (d & -> & _).
    eexists; reflexivity.
  - destruct (duration_since_ok t te Ht Hte ltac:(ts_order)) as (d & -> & _).
    simpl. destruct (secs_f64_lt_10 d); eexists; reflexivity.
Qed.

Lemma correlate_ok (idx : Index) (st : Tally * list Line) (l : list Rec) :
  index_valid idx -> Forall (fun r => valid_time (rec_time r)) l ->
  exists st', correlate idx st l = Ok st'.
Proof.
  revert st; induction l as [|r l IH]; intros st Hidx Hl; simpl; [eauto|].
  apply Forall_cons in Hl as [Hr Hl].
  destruct (correlate_one_ok idx st r Hidx Hr) as (st' & ->).
  exact (IH st' Hidx Hl).
Qed.

Lemma build_index_valid (idx : Index) (l : list Rec) :
  index_valid idx -> Forall (fun r => valid_time (rec_time r)) l ->
  index_valid (build_index_from idx l).
Proof.
  revert idx; induction l as [|r l IH]; intros idx Hidx Hl; simpl; [exact Hidx|].
  apply Forall_cons in Hl as [Hr Hl].
  apply IH; [|exact Hl].
  unfold index_step; destruct (rec_op r); [|exact Hidx].
  intros k t Hk. destruct (decide (key_of (rec_data r) = k)) as [<-|Hne].
  - rewrite lookup_insert_eq in Hk. injection Hk as <-. exact Hr.
  - rewrite lookup_insert_ne in Hk by exact Hne. exact (Hidx _ _ Hk).
Qed.

(** ** What [parse] produces *)

Lemma ascii_digits_all (d : string) :
  forallb is_digit (list_ascii_of_string d) = true -> all_digits d.
Proof.
  unfold all_digits. rewrite forallb_forall. intros H c Hc. exact (H c Hc).
Qed.

Lemma dec_value_acc_nonneg (acc : Z) (s : string) :
  0 <= acc -> all_digits s -> 0 <= dec_value_acc acc s.
Proof.
  unfold all_digits.
  revert acc; induction s as [|c s IH]; intros acc Hacc Hd; simpl; [exact Hacc|].
  apply IH; [|intros; apply Hd; simpl; auto].
  assert (Hc : is_digit c = true) by (apply Hd; simpl; auto).
  unfold is_digit in Hc. apply andb_prop in Hc as [H1 _].
  apply Nat.leb_le in H1. lia.
Qed.

Lemma uint_fits_digits (max : Z) (d : string) :
  uint_fits max d = true -> all_digits d /\ 0 <= dec_value d <= max.
Proof.
  unfold uint_fits. intros H. apply andb_prop in H as [Ha Hm].
  apply ascii_digits_all in Ha. apply Z.leb_le in Hm.
  split; [exact Ha|]. split; [apply dec_value_acc_nonneg; [lia | exact Ha] | exact Hm].
Qed.

Lemma parse_uint_ok (max : Z) (d : string) (v : Z) :
  parse_uint max d = Ok v -> v = dec_value d /\ all_digits d /\ 0 <= v <= max.
Proof.
  unfold parse_uint. destruct (uint_fits max d) eqn:E; intros Hp; inversion Hp; subst.
  apply uint_fits_digits in E. tauto.
Qed.

Lemma caps_fit_digits (c : Caps) : caps_fit c = true -> caps_digits c.
Proof.
  unfold caps_fit, caps_digits. rewrite !andb_true_iff.
  intros ((((H1 & H2) & H3) & H4) & _).
  apply uint_fits_digits in H1, H2, H3, H4. tauto.
Qed.

Ltac zbool :=
  repeat match goal with
  | H : (_ <=? _) = true |- _ => apply Z.leb_le in H
  | H : (_ <=? _) = false |- _ => apply Z.leb_gt in H
  | H : (_ <? _) = true |- _ => apply Z.ltb_lt in H
  | H : (_ <? _) = false |- _ => apply Z.ltb_ge in H
  end.

Lemma dec_value_nonneg (s : string) : all_digits s -> 0 <= dec_value s.
Proof. intros H; apply dec_value_acc_nonneg; [lia | exact H]. Qed.

Lemma parse_cap_no_time_error (op : Op) (c : Caps) :
  parse_cap op c <> Err SystemTimeErr.
Proof.
  unfold parse_cap, parse_uint, duration_new, add_duration.
  repeat (case_match; simpl); discriminate.
Qed.

Lemma parse_cap_ok_iff (op : Op) (c : Caps) (r : Rec) :
  parse_cap op c = Ok r <-> caps_fit c = true /\ r = cap_record op c.
Proof.
  unfold caps_fit, cap_record, parse_cap, parse_uint.
  destruct (uint_fits U64_MAX (cap_sst c)) eqn:F1; cbn;
    [|split; [discriminate | intros [Hf _]; discriminate]].
  destruct (uint_fits U64_MAX (cap_blk c)) eqn:F2; cbn;
    [|split; [discriminate | intros [Hf _]; discriminate]].
  destruct (uint_fits U64_MAX (cap_sec c)) eqn:F3; cbn;
    [|split; [discriminate | intros [Hf _]; discriminate]].
  destruct (uint_fits U32_MAX (cap_nsec c)) eqn:F4; cbn;
    [|split; [discriminate | intros [Hf _]; discriminate]].
  apply uint_fits_digits in F3 as [_ H3]. apply uint_fits_digits in F4 as [_ H4].
  set (a := dec_value (cap_sst c)) in *. set (b := dec_value (cap_blk c)) in *.
  set (sec := dec_value (cap_sec c)) in *. set (ns := dec_value (cap_nsec c)) in *.
  pose proof (Z.mod_pos_bound ns NANOS_PER_SEC ltac:(reflexivity)) as Hm.
  pose proof (Z.div_pos ns NANOS_PER_SEC ltac:(lia) ltac:(reflexivity)) as Hd.
  zbool. unfold duration_new.
  destruct (ns <? NANOS_PER_SEC) eqn:En; zbool; cbn.
  - rewrite (Z.div_small ns) by lia. rewrite (Z.mod_small ns) by lia.
    unfold add_duration; cbn.
    replace (0 + sec) with sec by lia. replace (ns + 0) with ns by lia.
    rewrite Z.add_0_r.
    destruct (I64_MAX <? sec) eqn:E1; zbool.
    + split; [discriminate|]. intros [Hf _]. zbool. unfold I64_MAX in *; lia.
    + destruct (NANOS_PER_SEC <=? ns) eqn:E2; zbool; [lia|].
      destruct (sec <=? I64_MAX) eqn:E3; zbool; [|lia].
      split; [intros Hr; injection Hr as <-; auto | intros [_ ->]; reflexivity].
  - destruct (sec + ns / NANOS_PER_SEC <=? U64_MAX) eqn:E0; zbool; cbn.
    + unfold add_duration; cbn.
      replace (0 + (sec + ns / NANOS_PER_SEC)) with (sec + ns / NANOS_PER_SEC) by lia.
      rewrite Z.add_0_r.
      destruct (I64_MAX <? sec + ns / NANOS_PER_SEC) eqn:E1; zbool.
      * destruct (sec + ns / NANOS_PER_SEC <=? I64_MAX) eqn:E3; zbool; [lia|].
        split; [discriminate | intros [Hf _]; discriminate].
      * destruct (NANOS_PER_SEC <=? ns mod NANOS_PER_SEC) eqn:E2; zbool; [lia|].
        destruct (sec + ns / NANOS_PER_SEC <=? I64_MAX) eqn:E3; zbool; [|lia].
        split; [intros Hr; injection Hr as <-; auto | intros [_ ->]; reflexivity].
    + destruct (sec + ns / NANOS_PER_SEC <=? I64_MAX) eqn:E3; zbool;
        [unfold I64_MAX, U64_MAX in *; lia|].
      split; [discriminate | intros [Hf _]; discriminate].
Qed.

Lemma cap_record_valid (op : Op) (c : Caps) :
  caps_fit c = true -> valid_time (rec_time (cap_record op c)).
Proof.
  intros Hf. pose proof (caps_fit_digits c Hf) as (_ & _ & H3 & H4).
  apply dec_value_nonneg in H3, H4.
  unfold caps_fit in Hf. rewrite !andb_true_iff in Hf. destruct Hf as [_ Hf]. zbool.
  pose proof (Z.mod_pos_bound (dec_value (cap_nsec c)) NANOS_PER_SEC ltac:(reflexivity)).
  pose proof (Z.div_pos (dec_value (cap_nsec c)) NANOS_PER_SEC ltac:(lia) ltac:(reflexivity)).
  unfold valid_time, cap_record, rec_time; simpl. lia.
Qed.

Lemma parse_caps_ok_iff (op : Op) (cs : list Caps) (rs : list Rec) :
  parse_caps op cs = Ok rs <->
  Forall (fun c => caps_fit c = true) cs /\ rs = map (cap_record op) cs.
Proof.
  revert rs; induction cs as [|c cs IH]; intros rs; simpl.
  - split; [intros H; injection H as <-; auto | intros [_ ->]; reflexivity].
  - rewrite Forall_cons.
    destruct (parse_cap op c) as [r|e] eqn:E1; cbn.
    + apply (parse_cap_ok_iff op c r) in E1 as [Hf ->].
      case_eq (parse_caps op cs); [intros rs' E2 | intros e E2]; cbn.
      * apply (IH rs') in E2 as [Hfs ->].
        split; [intros H; injection H as <-; auto | intros [_ ->]; reflexivity].
      * split; [discriminate|]. intros [[_ Hfs] _].
        assert (parse_caps op cs = Ok (map (cap_record op) cs)) as E3
          by (apply IH; auto).
        congruence.
    + split; [discriminate|]. intros [[Hf _] _].
      assert (parse_cap op c = Ok (cap_record op c)) as E3
        by (apply parse_cap_ok_iff; auto).
      congruence.
Qed.

Lemma parse_caps_no_time_error (op : Op) (cs : list Caps) :
  parse_caps op cs <> Err SystemTimeErr.
Proof.
  induction cs as [|c cs IH]; simpl; [discriminate|].
  destruct (parse_cap op c) eqn:E; cbn; [|intros [= ->]; exact (parse_cap_no_time_error op c E)].
  destruct (parse_caps op cs); cbn; [discriminate | exact IH].
Qed.

Lemma parse_valid (s : string) (rs : list Rec) :
  parse s = Ok rs -> Forall (fun r => valid_time (rec_time r)) rs.
Proof.
  unfold parse. destruct (section_op s) as [op|]; [|intros [= <-]; constructor].
  intros H. apply parse_caps_ok_iff in H as [Hf ->].
  apply List.Forall_forall. intros r Hr. apply in_map_iff in Hr as (c & <- & Hc).
  rewrite List.Forall_forall in Hf. apply cap_record_valid; auto.
Qed.

Lemma parse_all_valid (bs : list string) (rs : list Rec) :
  parse_all bs = Ok rs -> Forall (fun r => valid_time (rec_time r)) rs.
Proof.
  revert rs; induction bs as [|s bs IH]; intros rs; simpl; [intros [= <-]; constructor|].
  destruct (parse s) as [r1|e] eqn:E1; cbn; [|discriminate].
  destruct (parse_all bs) as [r2|e] eqn:E2; cbn; [|discriminate].
  intros [= <-]. apply Forall_app; split; [eapply parse_valid; eauto | apply IH; reflexivity].
Qed.

Lemma parse_all_no_time_error (bs : list string) :
  parse_all bs <> Err SystemTimeErr.
Proof.
  induction bs as [|s bs IH]; simpl; [discriminate|].
  destruct (parse s) eqn:E; cbn.
  - destruct (parse_all bs); cbn; [discriminate | exact IH].
  - unfold parse in E. destruct (section_op s); [|discriminate].
    intros [= ->]. exact (parse_caps_no_time_error _ _ E).
Qed.

Lemma cap_record_exact (op : Op) (c : Caps) :
  caps_digits c -> dec_value (cap_nsec c) < NANOS_PER_SEC ->
  cap_record op c =
    (mkData (dec_value (cap_sst c)) (dec_value (cap_blk c)),
     mkTime (dec_value (cap_sec c)) (dec_value (cap_nsec c)), op).
Proof.
  intros (_ & _ & _ & H4) Hn. apply dec_value_nonneg in H4.
  unfold cap_record. rewrite Z.div_small, Z.mod_small by lia.
  rewrite Z.add_0_r. reflexivity.
Qed.

Lemma fields_fit_digits (c : Caps) : fields_fit c = true -> caps_digits c.
Proof.
  unfold fields_fit, caps_digits. rewrite !andb_true_iff.
  intros (((H1 & H2) & H3) & H4).
  apply uint_fits_digits in H1, H2, H3, H4. tauto.
Qed.

Lemma caps_fit_of_fields (c : Caps) :
  fields_fit c = true -> dec_value (cap_sec c) <= I64_MAX ->
  dec_value (cap_nsec c) < NANOS_PER_SEC -> caps_fit c = true.
Proof.
  intros Hf Hs Hn. pose proof (fields_fit_digits c Hf) as (_ & _ & _ & H4).
  apply dec_value_nonneg in H4.
  unfold fields_fit, caps_fit in *. rewrite Hf. simpl.
  rewrite Z.div_small by lia. apply Z.leb_le. lia.
Qed.

(** * Claims *)

(** ** C6 *)

(** C6: after [sort_by_key(|(_, time, _)| Reverse(time))] each record's time
    is at least the next one's, and the sort is stable: the records with
    any given time appear in the same relative order as before sorting. *)
Theorem C6_sort_descending_stable (l : list Rec) :
  (forall (i : nat) (a b : Rec),
     sort_by_rev_time l !! i = Some a -> sort_by_rev_time l !! S i = Some b ->
     ts_leb (rec_time b) (rec_time a) = true) /\
  (forall t : SystemTime,
     filter (fun r => rec_time r = t) (sort_by_rev_time l) =
     filter (fun r => rec_time r = t) l).
Proof.
  split.
  - intros i a b Ha Hb. exact (Sorted_lookup_adjacent desc _ i a b (sort_sorted l) Ha Hb).
  - intros t. induction l as [|x l IH]; simpl; [reflexivity|].
    rewrite filter_insert_rev, filter_cons, IH. reflexivity.
Qed.

Lemma C6_sort_descending_stable_witness :
  let l := [(mkData 1 1, mkTime 5 0, Evicted); (mkData 2 2, mkTime 9 0, Missed);
            (mkData 3 3, mkTime 5 0, Missed)] in
  sort_by_rev_time l = [(mkData 2 2, mkTime 9 0, Missed);
                        (mkData 1 1, mkTime 5 0, Evicted);
                        (mkData 3 3, mkTime 5 0, Missed)] /\
  ts_leb (mkTime 5 0) (mkTime 9 0) = true /\
  filter (fun r => rec_time r = mkTime 5 0) (sort_by_rev_time l) =
  filter (fun r => rec_time r = mkTime 5 0) l.
Proof.
  intros l. split; [reflexivity|]. split.
  - apply (proj1 (C6_sort_descending_stable l) 0%nat (mkData 2 2, mkTime 9 0, Missed)
                                               (mkData 1 1, mkTime 5 0, Evicted));
      reflexivity.
  - apply (proj2 (C6_sort_descending_stable l)).
Defined.

(** ** C1 *)

(** C1: after the sort and the overwrite pass over the sorted records, the
    index holds, for each key, exactly the time of the earliest Evicted
    record of that key (and nothing when the key was never evicted). *)
Theorem C1_index_keeps_earliest_eviction (l : list Rec) (k : Z * Z) (t : SystemTime) :
  evicted_times (sort_by_rev_time l) !! k = Some t <-> earliest_eviction l k t.
Proof.
  pose proof (sort_sorted l) as Hs.
  pose proof (sort_perm l) as Hp.
  unfold evicted_times, earliest_eviction.
  destruct (decide (Exists (fun r => rec_op r = Evicted /\ key_of (rec_data r) = k)
                            (sort_by_rev_time l))) as [Hin | Hnot].
  - apply Exists_exists in Hin as (r & Hr & Hop & Hk).
    apply list_elem_of_In in Hr.
    destruct (build_index_sorted_some k _ ∅ Hs ltac:(eauto))
      as (m & Hm & Hmop & Hmk & Hlk & Hmin).
    rewrite Hlk. split.
    + intros Ht; injection Ht as <-. split.
      * exists m; repeat split; auto. eapply Permutation_in; eauto.
      * intros r' Hr' Hop' Hk'. apply Hmin; auto.
        eapply Permutation_in; [symmetry; exact Hp | exact Hr'].
    + intros [(r' & Hr' & Hop' & Hk' & <-) Hle]. f_equal.
      apply ts_leb_antisym.
      * apply Hmin; auto. eapply Permutation_in; [symmetry; exact Hp | exact Hr'].
      * apply Hle; auto. eapply Permutation_in; eauto.
  - rewrite build_index_none, lookup_empty.
    + split; [discriminate|].
      intros [(r & Hr & Hop & Hk & _) _]. exfalso. apply Hnot, Exists_exists.
      exists r; split; [|auto].
      apply list_elem_of_In. eapply Permutation_in; [symmetry; exact Hp | exact Hr].
    + intros r Hr Hop Hk. apply Hnot, Exists_exists.
      exists r; split; [apply list_elem_of_In; exact Hr | auto].
Qed.

(** The spec's example: three evictions of one key at [T1 < T2 < T3], in
    any input order, leave [T1] in the index. *)
Example C1_three_evictions :
  evicted_times (sort_by_rev_time
    [(mkData 4 2, mkTime 200 0, Evicted); (mkData 4 2, mkTime 300 0, Evicted);
     (mkData 4 2, mkTime 100 0, Evicted)]) !! (4, 2) = Some (mkTime 100 0).
Proof. reflexivity. Qed.

(** ** C3 *)

(** C3: a Missed record whose key is indexed with an eviction time at or
    before the miss time gives a Resolved line whose delta is the miss time
    minus the eviction time; below 10 s the line has the short marker and
    [short] goes up by one, otherwise (10 s included) [long] does. *)
Theorem C3_resolved_bucket (idx : Index) (tl : Tally) (out : list Line)
    (data : Data) (tm te : SystemTime) :
  valid_time tm -> valid_time te ->
  idx !! key_of data = Some te -> ts_leb te tm = true ->
  exists d, dur_ns d = time_ns tm - time_ns te /\
    correlate_one idx (tl, out) (data, tm, Missed) =
      if dur_ns d <? 10 * NANOS_PER_SEC
      then Ok (mkTally (long tl) (short tl + 1) (none tl),
               out ++ [resolved_line data d tm SHORT_SUFFIX])
      else Ok (mkTally (long tl + 1) (short tl) (none tl),
               out ++ [resolved_line data d tm ""]).
Proof.
  intros Hm He Hk Hle.
  destruct (duration_since_ok tm te Hm He Hle) as (d & Hd & Hns).
  exists d; split; [exact Hns|].
  cbn. rewrite Hk, ts_ltb_leb, Hle. cbn. rewrite Hd. reflexivity.
Qed.

Lemma C3_resolved_bucket_witness :
  exists d, dur_ns d = time_ns (mkTime 150 0) - time_ns (mkTime 100 0) /\
    correlate_one {[(1, 1) := mkTime 100 0]} (tally0, []) (mkData 1 1, mkTime 150 0, Missed) =
      if dur_ns d <? 10 * NANOS_PER_SEC
      then Ok (mkTally 0 1 0, [resolved_line (mkData 1 1) d (mkTime 150 0) SHORT_SUFFIX])
      else Ok (mkTally 1 0 0, [resolved_line (mkData 1 1) d (mkTime 150 0) ""]).
Proof.
  apply (C3_resolved_bucket {[(1, 1) := mkTime 100 0]} tally0 [] (mkData 1 1)
           (mkTime 150 0) (mkTime 100 0)).
  - unfold valid_time, I64_MAX, NANOS_PER_SEC; simpl; lia.
  - unfold valid_time, I64_MAX, NANOS_PER_SEC; simpl; lia.
  - reflexivity.
  - reflexivity.
Defined.

(** The two examples of the spec: 50 s is long, 5 s is short. *)
Example C3_examples :
  correlate_one {[(1, 1) := mkTime 100 0]} (tally0, []) (mkData 1 1, mkTime 150 0, Missed) =
    Ok (mkTally 1 0 0, [resolved_line (mkData 1 1) (mkDuration 50 0) (mkTime 150 0) ""]) /\
  correlate_one {[(1, 1) := mkTime 100 0]} (tally0, []) (mkData 1 1, mkTime 105 0, Missed) =
    Ok (mkTally 0 1 0, [resolved_line (mkData 1 1) (mkDuration 5 0) (mkTime 105 0) SHORT_SUFFIX]) /\
  correlate_one {[(1, 1) := mkTime 100 0]} (tally0, []) (mkData 1 1, mkTime 110 0, Missed) =
    Ok (mkTally 1 0 0, [resolved_line (mkData 1 1) (mkDuration 10 0) (mkTime 110 0) ""]).
Proof. repeat split; reflexivity. Qed.

(** ** C4 *)

(** C4: a Missed record whose key is indexed with an eviction time after
    the miss time gives an Inverted line, written with [-] before the delta,
    whose delta is the eviction time minus the miss time; no counter
    changes. *)
Theorem C4_inverted_not_counted (idx : Index) (tl : Tally) (out : list Line)
    (data : Data) (tm te : SystemTime) :
  valid_time tm -> valid_time te ->
  idx !! key_of data = Some te -> ts_ltb tm te = true ->
  exists d, dur_ns d = time_ns te - time_ns tm /\
    correlate_one idx (tl, out) (data, tm, Missed) =
      Ok (tl, out ++ [inverted_line data d tm]) /\
    In (SLit ", delta: -") (inverted_line data d tm).
Proof.
  intros Hm He Hk Hlt.
  destruct (duration_since_ok te tm He Hm ltac:(ts_order)) as (d & Hd & Hns).
  exists d; split; [exact Hns|]. split.
  - cbn. rewrite Hk, Hlt. cbn. rewrite Hd. reflexivity.
  - simpl; auto.
Qed.

Lemma C4_inverted_not_counted_witness :
  exists d, dur_ns d = time_ns (mkTime 200 0) - time_ns (mkTime 150 0) /\
    correlate_one {[(1, 1) := mkTime 200 0]} (tally0, []) (mkData 1 1, mkTime 150 0, Missed) =
      Ok (tally0, [inverted_line (mkData 1 1) d (mkTime 150 0)]) /\
    In (SLit ", delta: -") (inverted_line (mkData 1 1) d (mkTime 150 0)).
Proof.
  apply (C4_inverted_not_counted {[(1, 1) := mkTime 200 0]} tally0 [] (mkData 1 1)
           (mkTime 150 0) (mkTime 200 0)).
  - unfold valid_time, I64_MAX, NANOS_PER_SEC; simpl; lia.
  - unfold valid_time, I64_MAX, NANOS_PER_SEC; simpl; lia.
  - reflexivity.
  - reflexivity.
Defined.

(** ** C5 *)

(** C5: a Missed record whose key has no Evicted record in the whole
    stream gives the "No evicted time found" line and only [none] goes up. *)
Theorem C5_unmatched_counts_none (records : list Rec) (tl : Tally) (out : list Line)
    (data : Data) (tm : SystemTime) :
  (forall r, In r records -> rec_op r = Evicted -> key_of (rec_data r) <> key_of data) ->
  correlate_one (evicted_times records) (tl, out) (data, tm, Missed) =
    Ok (mkTally (long tl) (short tl) (none tl + 1), out ++ [none_line data tm]) /\
  In (SLit ", No evicted time found") (none_line data tm).
Proof.
  intros Hno. split; [|simpl; auto].
  cbn. unfold evicted_times. rewrite build_index_none by exact Hno.
  rewrite lookup_empty. reflexivity.
Qed.

Lemma C5_unmatched_counts_none_witness :
  correlate_one (evicted_times [(mkData 2 2, mkTime 100 0, Evicted);
                                (mkData 1 1, mkTime 90 0, Missed)])
                (tally0, []) (mkData 1 1, mkTime 90 0, Missed) =
    Ok (mkTally 0 0 1, [none_line (mkData 1 1) (mkTime 90 0)]) /\
  In (SLit ", No evicted time found") (none_line (mkData 1 1) (mkTime 90 0)).
Proof.
  apply (C5_unmatched_counts_none _ tally0 [] (mkData 1 1) (mkTime 90 0)).
  intros r [<- | [<- | []]]; simpl; [intros _; discriminate | discriminate].
Defined.

(** ** C9 *)

(** C9: with the times [main] handles, the subtraction on the
    non-inverted branch ([t_evict <= t_miss]) and the one on the inverted
    branch ([t_evict > t_miss]) both succeed, so the run never stops on the
    [unwrap] of [duration_since]. *)
Theorem C9_duration_since_never_fails :
  (forall te tm : SystemTime, valid_time te -> valid_time tm ->
     (ts_ltb tm te = false -> exists d, duration_since_unwrap tm te = Ok d) /\
     (ts_ltb tm te = true -> exists d, duration_since_unwrap te tm = Ok d)) /\
  (forall blocks : list string, main_model blocks <> Err SystemTimeErr).
Proof.
  split.
  - intros te tm He Hm. split; intros Hlt.
    + destruct (duration_since_ok tm te Hm He ltac:(ts_order)) as (d & Hd & _); eauto.
    + destruct (duration_since_ok te tm He Hm ltac:(ts_order)) as (d & Hd & _); eauto.
  - intros blocks. unfold main_model.
    destruct (parse_all blocks) as [recs|e] eqn:E; cbn;
      [|intros [= ->]; exact (parse_all_no_time_error blocks E)].
    pose proof (parse_all_valid blocks recs E) as Hv.
    assert (Hs : Forall (fun r => valid_time (rec_time r)) (sort_by_rev_time recs)).
    { rewrite List.Forall_forall in *. intros r Hr. apply Hv.
      eapply Permutation_in; [apply sort_perm | exact Hr]. }
    assert (Hidx : index_valid (evicted_times (sort_by_rev_time recs))).
    { apply build_index_valid; [|exact Hs].
      intros k t Hk. rewrite lookup_empty in Hk. discriminate. }
    destruct (correlate_ok _ (tally0, []) _ Hidx Hs) as ([tl out] & ->).
    cbn. discriminate.
Qed.

Lemma C9_duration_since_never_fails_witness :
  (exists d, duration_since_unwrap (mkTime 150 0) (mkTime 100 5) = Ok d) /\
  (exists d, duration_since_unwrap (mkTime 200 0) (mkTime 150 7) = Ok d) /\
  main_model [] <> Err SystemTimeErr.
Proof.
  assert (Hv1 : valid_time (mkTime 100 5))
    by (unfold valid_time, I64_MAX, NANOS_PER_SEC; simpl; lia).
  assert (Hv2 : valid_time (mkTime 150 0))
    by (unfold valid_time, I64_MAX, NANOS_PER_SEC; simpl; lia).
  assert (Hv3 : valid_time (mkTime 200 0))
    by (unfold valid_time, I64_MAX, NANOS_PER_SEC; simpl; lia).
  assert (Hv4 : valid_time (mkTime 150 7))
    by (unfold valid_time, I64_MAX, NANOS_PER_SEC; simpl; lia).
  split; [|split].
  - apply (proj1 (proj1 C9_duration_since_never_fails _ _ Hv1 Hv2)). reflexivity.
  - apply (proj2 (proj1 C9_duration_since_never_fails _ _ Hv3 Hv4)). reflexivity.
  - apply (proj2 C9_duration_since_never_fails).
Defined.

(** ** C2 *)

Lemma correlate_one_ext (idx1 idx2 : Index) (st : Tally * list Line) (r : Rec) :
  (rec_op r = Missed -> idx1 !! key_of (rec_data r) = idx2 !! key_of (rec_data r)) ->
  correlate_one idx1 st r = correlate_one idx2 st r.
Proof.
  destruct st as [tl out], r as [[data t] op]; cbn; intros H.
  destruct op; [reflexivity|]. rewrite H by reflexivity. reflexivity.
Qed.

Lemma combined_scan_from_two_pass (idx : Index) (st : Tally * list Line) (l : list Rec) :
  no_later_eviction l ->
  combined_scan_from idx st l = correlate (build_index_from idx l) st l.
Proof.
  revert idx st; induction l as [|r l IH]; intros idx st H; [reflexivity|].
  destruct H as [Hr Hl]. cbn [combined_scan_from correlate].
  change (build_index_from idx (r :: l)) with (build_index_from (index_step idx r) l).
  rewrite (correlate_one_ext idx (build_index_from (index_step idx r) l)).
  - destruct (correlate_one _ st r) as [st'|e]; cbn; [apply IH, Hl | reflexivity].
  - intros Hop. rewrite build_index_none by (apply Hr, Hop).
    unfold index_step; rewrite Hop; reflexivity.
Qed.

(** C2, as stated, fails: on the sorted stream [Missed (1,1) at 150;
    Evicted (1,1) at 100] the single scan has not seen the eviction when it
    meets the miss and reports it as unmatched, while the code's two passes
    resolve it with a 50 s delta. *)
Lemma C2_counterexample :
  let l := [(mkData 1 1, mkTime 150 0, Missed); (mkData 1 1, mkTime 100 0, Evicted)] in
  sort_by_rev_time l = l /\
  combined_scan l = Ok (mkTally 0 0 1, [none_line (mkData 1 1) (mkTime 150 0)]) /\
  two_pass l = Ok (mkTally 1 0 0,
                   [resolved_line (mkData 1 1) (mkDuration 50 0) (mkTime 150 0) ""]) /\
  combined_scan l <> two_pass l.
Proof.
  split; [reflexivity|]. split; [reflexivity|]. split; [reflexivity | discriminate].
Qed.

(** C2 (amended): the single combined scan gives the same lines and the
    same counters as the code's two passes on every stream in which no
    Missed record is followed by an Evicted record of its key. *)
Theorem C2_combined_scan_agrees (l : list Rec) :
  no_later_eviction l -> combined_scan l = two_pass l.
Proof. intros H. exact (combined_scan_from_two_pass ∅ (tally0, []) l H). Qed.

Lemma C2_combined_scan_agrees_witness :
  let l := [(mkData 1 1, mkTime 150 0, Evicted); (mkData 1 1, mkTime 120 0, Missed);
            (mkData 2 2, mkTime 110 0, Missed)] in
  no_later_eviction l /\ combined_scan l = two_pass l.
Proof.
  intros l. assert (H : no_later_eviction l).
  { simpl. split; [discriminate|]. split.
    - intros _ r' [<- | []] Hop; discriminate Hop.
    - split; [intros _ r' []|exact I]. }
  split; [exact H | apply (C2_combined_scan_agrees l H)].
Defined.

(** ** C7 *)

(** C7, as stated, fails: the block below has the Evicted marker and
    exactly two event lines, every field fits its integer type and
    [tv_nsec] is below 10^9, yet [parse] panics: [tv_sec = 2^63] is beyond
    the signed seconds of a Unix [SystemTime]. *)
Lemma C7_counterexample :
  let s := String.append EVICTED_MARKER (String.append " "
             (String.append (event_line "1" "2" "9223372036854775808" "0")
               (String.append " " (event_line "3" "4" "1000" "0")))) in
  contains s EVICTED_MARKER = true /\
  captures s = [mkCaps "1" "2" "9223372036854775808" "0"; mkCaps "3" "4" "1000" "0"] /\
  forallb (fun c => fields_fit c && (dec_value (cap_nsec c) <? NANOS_PER_SEC))
          (captures s) = true /\
  parse s = Err SystemTimeAddOverflow.
Proof.
  split; [vm_compute; reflexivity|]. split; [vm_compute; reflexivity|].
  split; vm_compute; reflexivity.
Qed.

(** C7 (amended): a block with the Evicted marker whose only two matches
    have fields that are runs of ASCII digits fitting their types,
    [tv_nsec] below 10^9 and [tv_sec] at
    most 2^63 - 1, yields exactly two Evicted records with the captured key
    and time; a block with neither marker yields nothing. *)
Theorem C7_extraction_two_lines :
  (forall (s : string) (c1 c2 : Caps),
     contains s EVICTED_MARKER = true -> captures s = [c1; c2] ->
     Forall (fun c => fields_fit c = true /\ dec_value (cap_sec c) <= I64_MAX /\
                      dec_value (cap_nsec c) < NANOS_PER_SEC) [c1; c2] ->
     parse s = Ok [(mkData (dec_value (cap_sst c1)) (dec_value (cap_blk c1)),
                    mkTime (dec_value (cap_sec c1)) (dec_value (cap_nsec c1)), Evicted);
                   (mkData (dec_value (cap_sst c2)) (dec_value (cap_blk c2)),
                    mkTime (dec_value (cap_sec c2)) (dec_value (cap_nsec c2)), Evicted)]) /\
  (forall s : string,
     contains s EVICTED_MARKER = false -> contains s MISSED_MARKER = false ->
     parse s = Ok []).
Proof.
  split.
  - intros s c1 c2 Hm Hc Hw.
    apply Forall_cons in Hw as [(Hf1 & Hs1 & Hn1) Hw].
    apply Forall_cons in Hw as [(Hf2 & Hs2 & Hn2) _].
    pose proof (fields_fit_digits c1 Hf1) as Hd1. pose proof (fields_fit_digits c2 Hf2) as Hd2.
    unfold parse, section_op. rewrite Hm, Hc.
    apply parse_caps_ok_iff.
    split.
    + constructor; [|constructor; [|constructor]]; apply caps_fit_of_fields; assumption.
    + simpl. rewrite !cap_record_exact by assumption. reflexivity.
  - intros s He Hm. unfold parse, section_op. rewrite He, Hm. reflexivity.
Qed.

Lemma C7_extraction_two_lines_witness :
  let s := String.append EVICTED_MARKER (String.append " "
             (String.append (event_line "12" "3" "1700000000" "5")
               (String.append " garbage " (event_line "7" "0" "1700000009" "999999999")))) in
  parse s = Ok [(mkData 12 3, mkTime 1700000000 5, Evicted);
                (mkData 7 0, mkTime 1700000009 999999999, Evicted)] /\
  parse "no marker: SstableBlockIndex { sst_id: 1, block_idx: 1 }, SystemTime { tv_sec: 1, tv_nsec: 1 }" = Ok [].
Proof.
  intros s. split.
  - apply (proj1 C7_extraction_two_lines s (mkCaps "12" "3" "1700000000" "5")
                                           (mkCaps "7" "0" "1700000009" "999999999")).
    + vm_compute; reflexivity.
    + vm_compute; reflexivity.
    + repeat constructor; vm_compute; (reflexivity || discriminate).
  - apply (proj2 C7_extraction_two_lines); vm_compute; reflexivity.
Defined.

(** ** C8 *)

(** C8, as stated, fails, in two ways.  Every field of the single match
    of the first block fits its integer type, yet [Duration::new] panics
    when the whole second carried out of [tv_nsec] overflows the u64
    seconds.  In the second block the [sst_id] field is the one character
    U+0661 ARABIC-INDIC DIGIT ONE (UTF-8 bytes D9 A1, a decimal digit of
    value 1): [\d] matches it, so the line is an event line, and
    [parse::<u64>()] rejects it with [InvalidDigit]. *)
Lemma C8_counterexample :
  (let s := String.append EVICTED_MARKER
              (event_line "1" "2" "18446744073709551615" "1000000000") in
   captures s = [mkCaps "1" "2" "18446744073709551615" "1000000000"] /\
   forallb fields_fit (captures s) = true /\
   parse s = Err DurationNewOverflow) /\
  (let one := String "217"%char (String "161"%char EmptyString) in
   let s := String.append EVICTED_MARKER (event_line one "2" "3" "4") in
   is_nd (cp2 "217"%char "161"%char) = true /\
   captures s = [mkCaps one "2" "3" "4"] /\
   parse s = Err ParseIntError).
Proof.
  split.
  - split; [vm_compute; reflexivity|]. split; vm_compute; reflexivity.
  - split; [vm_compute; reflexivity|]. split; vm_compute; reflexivity.
Qed.

(** C8 (amended): [parse] stops the run exactly when the block has a
    marker and some match has a field that does not parse as its type (a
    character other than an ASCII digit, which [\d] admits for the other
    Unicode decimal digits, or a value too large) or a time whose seconds,
    after carrying whole seconds out of [tv_nsec], exceed 2^63 - 1; text
    that does not match is skipped without error. *)
Theorem C8_extraction_fails_iff (s : string) :
  (exists e, parse s = Err e) <->
  section_op s <> None /\ Exists (fun c => caps_fit c = false) (captures s).
Proof.
  unfold parse. destruct (section_op s) as [op|]; [|split; [intros [e He]; discriminate | intros [H _]; congruence]].
  split.
  - intros [e He]. split; [discriminate|].
    destruct (decide (Forall (fun c => caps_fit c = true) (captures s))) as [Hf|Hf].
    + assert (parse_caps op (captures s) = Ok (map (cap_record op) (captures s))) as E
        by (apply parse_caps_ok_iff; auto).
      congruence.
    + apply not_Forall_Exists in Hf; [|intros c; apply _].
      eapply Exists_impl; [exact Hf|]. intros c Hc. apply not_true_iff_false, Hc.
  - intros [_ Hex].
    destruct (parse_caps op (captures s)) as [rs|e] eqn:E; [|eauto].
    apply (parse_caps_ok_iff op _ rs) in E as [Hf _].
    exfalso. apply Exists_exists in Hex as (c & Hc & Hfalse).
    rewrite Forall_forall in Hf. specialize (Hf c Hc). congruence.
Qed.

(** ** C10 *)

(** C10: a block with both markers is an Evicted section: it is parsed as
    one, and every record it yields, one per match, is Evicted. *)
Theorem C10_evicted_marker_precedence (s : string) :
  contains s EVICTED_MARKER = true -> contains s MISSED_MARKER = true ->
  section_op s = Some Evicted /\ parse s = parse_caps Evicted (captures s) /\
  (forall rs, parse s = Ok rs ->
     length rs = length (captures s) /\ Forall (fun r => rec_op r = Evicted) rs).
Proof.
  intros He _. unfold parse, section_op. rewrite He.
  split; [reflexivity|]. split; [reflexivity|].
  intros rs Hp. apply parse_caps_ok_iff in Hp as [_ ->].
  split; [apply length_map|].
  apply List.Forall_forall. intros r Hr. apply in_map_iff in Hr as (c & <- & _).
  reflexivity.
Qed.

Lemma C10_evicted_marker_precedence_witness :
  let s := String.append MISSED_MARKER (String.append EVICTED_MARKER
             (event_line "5" "6" "100" "0")) in
  section_op s = Some Evicted /\ parse s = parse_caps Evicted (captures s) /\
  (forall rs, parse s = Ok rs ->
     length rs = length (captures s) /\ Forall (fun r => rec_op r = Evicted) rs).
Proof.
  intros s. apply C10_evicted_marker_precedence; vm_compute; reflexivity.
Defined.

(** The end-to-end example of the spec: one Evicted block at 1000 s and one
    Missed block at 1005 s for block (1, 1). *)
Example main_model_end_to_end :
  main_model [String.append EVICTED_MARKER (event_line "1" "1" "1000" "0");
              String.append MISSED_MARKER (event_line "1" "1" "1005" "0")] =
  Ok ([(mkData 1 1, mkTime 1005 0, Missed); (mkData 1 1, mkTime 1000 0, Evicted)],
      {[(1, 1) := mkTime 1000 0]},
      mkTally 0 1 0,
      [resolved_line (mkData 1 1) (mkDuration 5 0) (mkTime 1005 0) SHORT_SUFFIX;
       summary_line (mkTally 0 1 0)]).
Proof. vm_compute. reflexivity. Qed.

(** * Further properties of the code *)

(** ** Text matching *)

Lemma starts_with_spec (p s : string) :
  starts_with p s = true <-> exists b, s = String.append p b.
Proof.
  revert s; induction p as [|a p IH]; intros s; simpl.
  - split; [intros _; exists s; reflexivity | reflexivity].
  - destruct s as [|c s]; simpl.
    + split; [discriminate | intros [b Hb]; discriminate].
    + rewrite andb_true_iff, Ascii.eqb_eq, IH. split.
      * intros [-> [b ->]]. exists b; reflexivity.
      * intros [b Hb]. injection Hb as -> ->. eauto.
Qed.

(** [s.contains(p)] holds exactly when [p] occurs somewhere in [s]. *)
Theorem contains_spec (s p : string) :
  contains s p = true <-> exists a b, s = String.append a (String.append p b).
Proof.
  induction s as [|c s IH]; simpl; rewrite orb_true_iff.
  - rewrite starts_with_spec. split.
    + intros [[b Hb] | Hf]; [|discriminate]. exists EmptyString, b. exact Hb.
    + intros (a & b & Hab). destruct a; [left; exists b; exact Hab | discriminate].
  - rewrite starts_with_spec, IH. split.
    + intros [[b Hb] | (a & b & Hab)].
      * exists EmptyString, b. exact Hb.
      * exists (String c a), b. simpl. rewrite Hab. reflexivity.
    + intros (a & b & Hab). destruct a as [|c' a]; simpl in Hab.
      * left; exists b; exact Hab.
      * injection Hab as -> Hs. right; eauto.
Qed.

Lemma contains_spec_witness :
  contains (String.append "log: " (String.append EVICTED_MARKER " tail")) EVICTED_MARKER = true.
Proof. apply contains_spec. exists "log: ", " tail". reflexivity. Defined.

Lemma string_append_assoc (a b c : string) :
  String.append (String.append a b) c = String.append a (String.append b c).
Proof. induction a as [|x a IH]; [reflexivity | exact (f_equal (String x) IH)]. Qed.

Lemma strip_prefix_app (p s : string) : strip_prefix p (String.append p s) = Some s.
Proof.
  induction p as [|a p IH]; simpl; [reflexivity|].
  rewrite Ascii.eqb_refl. exact IH.
Qed.

Lemma strip_prefix_length (p s r : string) :
  strip_prefix p s = Some r -> (String.length r + String.length p = String.length s)%nat.
Proof.
  revert s; induction p as [|a p IH]; intros s H; simpl in H.
  - injection H as <-. simpl. lia.
  - destruct s as [|b s]; [discriminate|].
    destruct (Ascii.eqb a b); [|discriminate].
    apply IH in H. simpl. lia.
Qed.

Lemma string_length_app (a b : string) :
  String.length (String.append a b) = (String.length a + String.length b)%nat.
Proof. induction a as [|x a IH]; [reflexivity | exact (f_equal S IH)]. Qed.

Lemma take_digits_split (n : nat) (s d r : string) :
  (String.length s <= n)%nat -> take_digits s = (d, r) -> s = String.append d r.
Proof.
  revert s d r; induction n as [|n IH]; intros s d r Hl H.
  - destruct s; [injection H as <- <-; reflexivity | simpl in Hl; lia].
  - destruct s as [|b0 s1]; [injection H as <- <-; reflexivity|].
    cbn [take_digits] in H. simpl in Hl.
    repeat (case_match; simplify_eq; try reflexivity);
      match goal with
      | E : take_digits ?x = (?d', ?r') |- _ =>
          rewrite (IH x d' r' ltac:(simpl in *; lia) E); reflexivity
      end.
Qed.

Lemma take_digits_length (s d r : string) :
  take_digits s = (d, r) -> (String.length d + String.length r = String.length s)%nat.
Proof.
  intros H. pose proof (take_digits_split (String.length s) s d r (le_n _) H) as E.
  rewrite E at 1. symmetry. apply string_length_app.
Qed.

Lemma digits1_length (s d r : string) :
  digits1 s = Some (d, r) -> (String.length r < String.length s)%nat.
Proof.
  unfold digits1. destruct (take_digits s) as [d' r'] eqn:E.
  destruct d' as [|x d']; intros H; [discriminate|]. injection H as <- <-.
  apply take_digits_length in E. simpl in E. lia.
Qed.

Lemma match_at_length (s r : string) (c : Caps) :
  match_at s = Some (c, r) -> (String.length r < String.length s)%nat.
Proof.
  unfold match_at. intros H.
  destruct (strip_prefix LIT1 s) as [r1|] eqn:S1; cbn -[strip_prefix digits1] in H; [|discriminate].
  destruct (digits1 r1) as [[d1 r2]|] eqn:E1; cbn -[strip_prefix digits1] in H; [|discriminate].
  destruct (strip_prefix LIT2 r2) as [r3|] eqn:S2; cbn -[strip_prefix digits1] in H; [|discriminate].
  destruct (digits1 r3) as [[d2 r4]|] eqn:E2; cbn -[strip_prefix digits1] in H; [|discriminate].
  destruct (strip_prefix LIT3 r4) as [r5|] eqn:S3; cbn -[strip_prefix digits1] in H; [|discriminate].
  destruct (digits1 r5) as [[d3 r6]|] eqn:E3; cbn -[strip_prefix digits1] in H; [|discriminate].
  destruct (strip_prefix LIT4 r6) as [r7|] eqn:S4; cbn -[strip_prefix digits1] in H; [|discriminate].
  destruct (digits1 r7) as [[d4 r8]|] eqn:E4; cbn -[strip_prefix digits1] in H; [|discriminate].
  destruct (strip_prefix LIT5 r8) as [r9|] eqn:S5; cbn -[strip_prefix digits1] in H; [|discriminate].
  injection H as _ <-.
  apply strip_prefix_length in S1, S2, S3, S4, S5.
  apply digits1_length in E1, E2, E3, E4. lia.
Qed.

Lemma captures_fuel_enough (n m : nat) (s : string) :
  (String.length s <= n)%nat -> (String.length s <= m)%nat ->
  captures_fuel n s = captures_fuel m s.
Proof.
  revert m s; induction n as [|n IH]; intros m s Hn Hm.
  - destruct s; [|simpl in Hn; lia]. destruct m; reflexivity.
  - destruct s as [|x s']; [destruct m; reflexivity|].
    destruct m as [|m]; [simpl in Hm; lia|]. cbn [captures_fuel].
    destruct (match_at (String x s')) as [[c r]|] eqn:E.
    + apply match_at_length in E. simpl in E, Hn, Hm. f_equal. apply IH; lia.
    + simpl in Hn, Hm. apply IH; lia.
Qed.

Lemma captures_match_at (s r : string) (c : Caps) :
  match_at s = Some (c, r) -> captures s = c :: captures r.
Proof.
  intros H. pose proof (match_at_length s r c H) as Hl.
  destruct s as [|x s']; [discriminate|].
  unfold captures at 1. cbn [captures_fuel String.length]. rewrite H. f_equal.
  apply captures_fuel_enough; simpl in Hl; lia.
Qed.

Lemma take_digits_app (d s : string) :
  all_digits d ->
  match s with
  | String c _ => negb (is_digit c) && (nat_of_ascii c <? 128)%nat = true
  | EmptyString => True
  end ->
  take_digits (String.append d s) = (d, s).
Proof.
  unfold all_digits. induction d as [|c d IH]; intros Hd Hs.
  - change (String.append EmptyString s) with s.
    destruct s as [|c s]; [reflexivity|].
    apply andb_prop in Hs as [Hc Hlt]. apply negb_true_iff in Hc.
    apply Nat.ltb_lt in Hlt.
    assert (Hb : (192 <=? byte c) = false /\ (224 <=? byte c) = false /\
                 (240 <=? byte c) = false)
      by (unfold byte; repeat split; apply Z.leb_gt; lia).
    destruct Hb as (H1 & H2 & H3).
    cbn [take_digits]. rewrite Hc.
    destruct s as [|b1 [|b2 [|b3 s4]]]; [reflexivity|..];
      rewrite ?H1, ?H2, ?H3; reflexivity.
  - change (String.append (String c d) s) with (String c (String.append d s)).
    cbn [take_digits]. rewrite (Hd c) by (simpl; auto).
    rewrite IH; [reflexivity | intros x Hx; apply Hd; simpl; auto | exact Hs].
Qed.

Lemma digits1_app (d s : string) :
  d <> EmptyString -> all_digits d ->
  match s with
  | String c _ => negb (is_digit c) && (nat_of_ascii c <? 128)%nat = true
  | EmptyString => True
  end ->
  digits1 (String.append d s) = Some (d, s).
Proof.
  intros Hne Hd Hs. unfold digits1. rewrite take_digits_app by assumption.
  destruct d; [congruence | reflexivity].
Qed.

Lemma match_at_event_line (a b c d rest : string) :
  a <> EmptyString -> b <> EmptyString -> c <> EmptyString -> d <> EmptyString ->
  all_digits a -> all_digits b -> all_digits c -> all_digits d ->
  match_at (String.append (event_line a b c d) rest) = Some (mkCaps a b c d, rest).
Proof.
  intros Ha Hb Hc Hd Da Db Dc Dd.
  unfold event_line. rewrite !string_append_assoc.
  unfold match_at.
  rewrite strip_prefix_app; cbn [mbind option_bind].
  rewrite digits1_app by (assumption || reflexivity); cbn [mbind option_bind].
  rewrite strip_prefix_app; cbn [mbind option_bind].
  rewrite digits1_app by (assumption || reflexivity); cbn [mbind option_bind].
  rewrite strip_prefix_app; cbn [mbind option_bind].
  rewrite digits1_app by (assumption || reflexivity); cbn [mbind option_bind].
  rewrite strip_prefix_app; cbn [mbind option_bind].
  rewrite digits1_app by (assumption || reflexivity); cbn [mbind option_bind].
  rewrite strip_prefix_app; cbn [mbind option_bind].
  reflexivity.
Qed.

(** [captures_iter] over an event line followed by any text: the line's
    four digit strings are the first match, and the search goes on right
    after it. *)
Theorem captures_event_line (a b c d rest : string) :
  a <> EmptyString -> b <> EmptyString -> c <> EmptyString -> d <> EmptyString ->
  all_digits a -> all_digits b -> all_digits c -> all_digits d ->
  captures (String.append (event_line a b c d) rest) = mkCaps a b c d :: captures rest.
Proof.
  intros. apply captures_match_at, match_at_event_line; assumption.
Qed.

Lemma captures_event_line_witness :
  captures (String.append (event_line "12" "3" "1700000000" "5") " trailing text") =
  [mkCaps "12" "3" "1700000000" "5"].
Proof.
  rewrite captures_event_line by (discriminate || (vm_compute; intros c Hc;
    repeat destruct Hc as [<- | Hc]; (reflexivity || contradiction))).
  reflexivity.
Defined.

(** ** [parse] and the aggregation of its results *)

(** What [parse] returns: nothing for a block without a marker; for a
    block with one, the record of each match in text order, all of the
    marker's kind, and that only when every match fits: its four fields
    are runs of ASCII digits fitting u64, u64, u64 and u32, and its time
    after the carry of the nanoseconds stays within 2^63 - 1 seconds. *)
Theorem parse_result (s : string) (rs : list Rec) :
  parse s = Ok rs <->
  (section_op s = None /\ rs = []) \/
  (exists op, section_op s = Some op /\
     Forall (fun c => caps_fit c = true) (captures s) /\
     rs = map (cap_record op) (captures s)).
Proof.
  unfold parse. destruct (section_op s) as [op|].
  - rewrite parse_caps_ok_iff. split.
    + intros H. right. exists op. split; [reflexivity | exact H].
    + intros [[Hn _] | (op' & Hop & H)]; [discriminate|].
      injection Hop as <-. exact H.
  - split.
    + intros H. injection H as <-. left; auto.
    + intros [[_ ->] | (op' & Hop & _)]; [reflexivity | discriminate].
Qed.

(** The loop over all blocks appends each block's records after those of
    the blocks before it, and stops at the first block that fails. *)
Theorem parse_all_app (bs1 bs2 : list string) :
  parse_all (bs1 ++ bs2) =
  (r1 ← parse_all bs1; r2 ← parse_all bs2; Ok (r1 ++ r2)).
Proof.
  induction bs1 as [|s bs1 IH]; cbn [parse_all app].
  - cbn. destruct (parse_all bs2); reflexivity.
  - rewrite IH. destruct (parse s) as [rs|e]; cbn; [|reflexivity].
    destruct (parse_all bs1) as [r1|e]; cbn; [|reflexivity].
    destruct (parse_all bs2) as [r2|e]; cbn; [|reflexivity].
    rewrite app_assoc. reflexivity.
Qed.

(** ** The sort *)

(** Sorting neither drops nor duplicates records. *)
Theorem sort_by_rev_time_permutation (l : list Rec) :
  Permutation (sort_by_rev_time l) l.
Proof. exact (sort_perm l). Qed.

Lemma sorted_sort_id (l : list Rec) :
  Sorted desc l -> sort_by_rev_time l = l.
Proof.
  induction l as [|x l IH]; intros Hs; [reflexivity|].
  apply Sorted_inv in Hs as [Hs Hh]. simpl. rewrite IH by exact Hs.
  destruct l as [|y l]; [reflexivity|]. simpl.
  apply HdRel_inv in Hh. unfold desc in Hh. rewrite Hh. reflexivity.
Qed.

(** Records already in descending time order are left as they are. *)
Theorem sort_by_rev_time_sorted_id (l : list Rec) :
  Sorted desc l -> sort_by_rev_time l = l.
Proof. exact (sorted_sort_id l). Qed.

Lemma sort_by_rev_time_sorted_id_witness :
  sort_by_rev_time [(mkData 1 1, mkTime 9 0, Missed); (mkData 2 2, mkTime 9 0, Evicted);
                    (mkData 3 3, mkTime 4 7, Evicted)] =
  [(mkData 1 1, mkTime 9 0, Missed); (mkData 2 2, mkTime 9 0, Evicted);
   (mkData 3 3, mkTime 4 7, Evicted)].
Proof.
  apply sort_by_rev_time_sorted_id.
  repeat constructor.
Defined.

(** Sorting twice is sorting once. *)
Theorem sort_by_rev_time_idempotent (l : list Rec) :
  sort_by_rev_time (sort_by_rev_time l) = sort_by_rev_time l.
Proof. apply sorted_sort_id, sort_sorted. Qed.

(** ** The index *)

(** Whatever the order of the records, the index holds for a key the time
    of its last Evicted record: each insert overwrites. *)
Theorem evicted_times_last_write (l1 l2 : list Rec) (r : Rec) :
  rec_op r = Evicted ->
  (forall r', In r' l2 -> rec_op r' = Evicted -> key_of (rec_data r') <> key_of (rec_data r)) ->
  evicted_times (l1 ++ r :: l2) !! key_of (rec_data r) = Some (rec_time r).
Proof.
  intros Hop Hno. unfold evicted_times.
  rewrite build_index_app. cbn [build_index_from foldl].
  change (foldl index_step (index_step (build_index_from ∅ l1) r) l2)
    with (build_index_from (index_step (build_index_from ∅ l1) r) l2).
  rewrite build_index_none by exact Hno.
  unfold index_step. rewrite Hop. apply lookup_insert_eq.
Qed.

Lemma evicted_times_last_write_witness :
  evicted_times ([(mkData 1 1, mkTime 5 0, Evicted)] ++
                 (mkData 1 1, mkTime 9 0, Evicted) :: [(mkData 2 2, mkTime 1 0, Evicted)])
    !! (1, 1) = Some (mkTime 9 0).
Proof.
  apply (evicted_times_last_write _ _ (mkData 1 1, mkTime 9 0, Evicted)); [reflexivity|].
  intros r' [<- | []] _. discriminate.
Defined.

Lemma build_index_some (idx : Index) (l : list Rec) (k : Z * Z) (t : SystemTime) :
  build_index_from idx l !! k = Some t ->
  idx !! k = Some t \/
  exists r, In r l /\ rec_op r = Evicted /\ key_of (rec_data r) = k /\ rec_time r = t.
Proof.
  revert idx; induction l as [|r l IH]; intros idx H; [left; exact H|].
  cbn [build_index_from foldl] in H.
  change (foldl index_step (index_step idx r) l) with (build_index_from (index_step idx r) l) in H.
  destruct (IH _ H) as [H1 | (r' & Hr' & Hop & Hk & Ht)].
  - unfold index_step in H1. destruct (rec_op r) eqn:Hop; [|left; exact H1].
    destruct (decide (key_of (rec_data r) = k)) as [<-|Hne].
    + rewrite lookup_insert_eq in H1. injection H1 as <-.
      right. exists r. simpl. auto.
    + rewrite lookup_insert_ne in H1 by exact Hne. left; exact H1.
  - right. exists r'. simpl. auto.
Qed.


Lemma build_index_keeps_key (idx : Index) (l : list Rec) (k : Z * Z) :
  is_Some (idx !! k) -> is_Some (build_index_from idx l !! k).
Proof.
  revert idx; induction l as [|r l IH]; intros idx H; [exact H|].
  cbn [build_index_from foldl].
  change (foldl index_step (index_step idx r) l) with (build_index_from (index_step idx r) l).
  apply IH. unfold index_step. destruct (rec_op r); [|exact H].
  destruct (decide (key_of (rec_data r) = k)) as [<-|Hne].
  - rewrite lookup_insert_eq. eauto.
  - rewrite lookup_insert_ne by exact Hne. exact H.
Qed.

Lemma build_index_has_key (idx : Index) (l : list Rec) (r : Rec) :
  In r l -> rec_op r = Evicted -> is_Some (build_index_from idx l !! key_of (rec_data r)).
Proof.
  intros Hr Hop. destruct (in_split r l Hr) as (l1 & l2 & ->).
  rewrite build_index_app. cbn [build_index_from foldl].
  change (foldl index_step (index_step (build_index_from idx l1) r) l2)
    with (build_index_from (index_step (build_index_from idx l1) r) l2).
  apply build_index_keeps_key. unfold index_step. rewrite Hop, lookup_insert_eq. eauto.
Qed.

(** A key is missing from the index exactly when no Evicted record has
    it; a time found in the index is the time of an Evicted record of that
    key. *)
Theorem evicted_times_domain (l : list Rec) (k : Z * Z) :
  (evicted_times l !! k = None <->
     forall r, In r l -> rec_op r = Evicted -> key_of (rec_data r) <> k) /\
  (forall t, evicted_times l !! k = Some t ->
     exists r, In r l /\ rec_op r = Evicted /\ key_of (rec_data r) = k /\ rec_time r = t).
Proof.
  split; [split|].
  - intros Hn r Hr Hop Hk. subst k.
    destruct (build_index_has_key ∅ l r Hr Hop) as [t Ht].
    unfold evicted_times in Hn. congruence.
  - intros Hno. unfold evicted_times. rewrite build_index_none by exact Hno.
    apply lookup_empty.
  - intros t H. apply build_index_some in H as [H | H]; [|exact H].
    rewrite lookup_empty in H. discriminate.
Qed.

(** ** The correlation loop *)

Lemma correlate_one_step (idx : Index) (tl : Tally) (out : list Line) (r : Rec)
  (tl' : Tally) (out' : list Line) :
  correlate_one idx (tl, out) r = Ok (tl', out') ->
  (exists new, out' = out ++ new /\
     length new = if missed_b r then 1%nat else 0%nat) /\
  none tl' = none tl + (if unmatched_b idx r then 1 else 0) /\
  long tl' + short tl' = long tl + short tl + (if resolved_b idx r then 1 else 0) /\
  long tl <= long tl' /\ short tl <= short tl'.
Proof.
  destruct r as [[data t] op].
  unfold missed_b, unmatched_b, resolved_b, rec_op, rec_data, rec_time; simpl.
  destruct op; simpl.
  - intros [= <- <-].
    split; [exists []; rewrite app_nil_r; split; reflexivity | lia].
  - destruct (idx !! key_of data) as [te|].
    + rewrite ts_ltb_leb. destruct (ts_leb te t) eqn:Hle; simpl.
      * destruct (duration_since_unwrap t te) as [d|e]; cbn; [|discriminate].
        destruct (secs_f64_lt_10 d); intros [= <- <-]; simpl;
          (split; [eexists; split; reflexivity | lia]).
      * destruct (duration_since_unwrap te t) as [d|e]; cbn; [|discriminate].
        intros [= <- <-].
        split; [eexists; split; reflexivity | lia].
    + intros [= <- <-]. simpl.
      split; [eexists; split; reflexivity | lia].
Qed.

Lemma correlate_counts (idx : Index) (tl : Tally) (out : list Line)
  (l : list Rec) (tl' : Tally) (out' : list Line) :
  correlate idx (tl, out) l = Ok (tl', out') ->
  (exists new, out' = out ++ new /\ length new = count_b missed_b l) /\
  none tl' = none tl + Z.of_nat (count_b (unmatched_b idx) l) /\
  long tl' + short tl' = long tl + short tl + Z.of_nat (count_b (resolved_b idx) l) /\
  long tl <= long tl' /\ short tl <= short tl'.
Proof.
  revert tl out; induction l as [|r l IH]; intros tl out H.
  - simpl in H. injection H as <- <-. unfold count_b; simpl.
    split; [exists []; rewrite app_nil_r; split; reflexivity | lia].
  - cbn [correlate] in H.
    destruct (correlate_one idx (tl, out) r) as [[tl1 out1]|e] eqn:E1; cbn in H;
      [|discriminate].
    apply correlate_one_step in E1 as ((n1 & -> & Hn1) & Hnone1 & Hsum1 & Hl1 & Hs1).
    destruct (IH _ _ H) as ((n2 & -> & Hn2) & Hnone2 & Hsum2 & Hl2 & Hs2).
    unfold count_b in *; cbn [List.filter].
    split.
    + exists (n1 ++ n2). rewrite app_assoc. split; [reflexivity|].
      rewrite length_app, Hn1, Hn2. destruct (missed_b r); reflexivity.
    + destruct (unmatched_b idx r), (resolved_b idx r); cbn [length] in *; lia.
Qed.

Lemma count_outcomes_le (idx : Index) (l : list Rec) :
  (count_b (unmatched_b idx) l + count_b (resolved_b idx) l <= count_b missed_b l)%nat.
Proof.
  unfold count_b. induction l as [|r l IH]; [simpl; lia|]. cbn [List.filter].
  unfold unmatched_b at 1, resolved_b at 1, missed_b at 1.
  destruct (rec_op r); [simpl; lia|].
  destruct (idx !! key_of (rec_data r)); [destruct (ts_leb _ _)|]; simpl; lia.
Qed.

(** What the second loop of [main] adds, when it completes, starting from
    counters that are non-negative and leave room for one increment per
    Missed record below 2^31 (so the source's [i32] counters never wrap):
    one line per Missed record; [none] grows by the number of Missed
    records whose key has no eviction, [long + short] by the number of
    Missed records at or after their key's eviction time (Missed records
    before it only write a line); [long] and [short] never decrease, and
    the counters end at most 2^31 - 1 together. *)
Theorem correlate_accounting (idx : Index) (tl : Tally) (out : list Line)
  (l : list Rec) (tl' : Tally) (out' : list Line) :
  0 <= long tl -> 0 <= short tl -> 0 <= none tl ->
  long tl + short tl + none tl + Z.of_nat (count_b missed_b l) <= I32_MAX ->
  correlate idx (tl, out) l = Ok (tl', out') ->
  (exists new, out' = out ++ new /\ length new = count_b missed_b l) /\
  none tl' = none tl + Z.of_nat (count_b (unmatched_b idx) l) /\
  long tl' + short tl' = long tl + short tl + Z.of_nat (count_b (resolved_b idx) l) /\
  long tl <= long tl' /\ short tl <= short tl' /\
  long tl' + short tl' + none tl' <= I32_MAX.
Proof.
  intros H1 H2 H3 Hb H.
  destruct (correlate_counts idx tl out l tl' out' H) as (Hout & Hn & Hs & Hl & Hsh).
  pose proof (count_outcomes_le idx l) as Hle.
  apply Nat2Z.inj_le in Hle. rewrite Nat2Z.inj_add in Hle.
  do 5 (split; [assumption|]). lia.
Qed.

Lemma correlate_accounting_witness :
  let idx := evicted_times [(mkData 1 1, mkTime 100 0, Evicted)] in
  correlate idx (tally0, []) [(mkData 1 1, mkTime 150 0, Missed);
                             (mkData 1 1, mkTime 50 0, Missed);
                             (mkData 2 2, mkTime 150 0, Missed)] =
    Ok (mkTally 1 0 1, [resolved_line (mkData 1 1) (mkDuration 50 0) (mkTime 150 0) "";
                        inverted_line (mkData 1 1) (mkDuration 50 0) (mkTime 50 0);
                        none_line (mkData 2 2) (mkTime 150 0)]) /\
  none (mkTally 1 0 1) = 0 + 1 /\ long (mkTally 1 0 1) + short (mkTally 1 0 1) = 0 + 0 + 1.
Proof.
  intros idx.
  assert (H : correlate idx (tally0, []) [(mkData 1 1, mkTime 150 0, Missed);
                             (mkData 1 1, mkTime 50 0, Missed);
                             (mkData 2 2, mkTime 150 0, Missed)] =
    Ok (mkTally 1 0 1, [resolved_line (mkData 1 1) (mkDuration 50 0) (mkTime 150 0) "";
                        inverted_line (mkData 1 1) (mkDuration 50 0) (mkTime 50 0);
                        none_line (mkData 2 2) (mkTime 150 0)])) by reflexivity.
  split; [exact H|].
  assert (Hb : long tally0 + short tally0 + none tally0 +
               Z.of_nat (count_b missed_b [(mkData 1 1, mkTime 150 0, Missed);
                                           (mkData 1 1, mkTime 50 0, Missed);
                                           (mkData 2 2, mkTime 150 0, Missed)]) <= I32_MAX)
    by (vm_compute; congruence).
  destruct (correlate_accounting _ tally0 _ _ _ _ ltac:(simpl; lia) ltac:(simpl; lia)
              ltac:(simpl; lia) Hb H) as (_ & Hn & Hs & _).
  split; [exact Hn | exact Hs].
Defined.

(** ** [main] *)

(** The duration file of a completed run with fewer than 2^31 Missed
    records (so the source's [i32] counters never wrap): one line per
    Missed record, then the summary line; [none] counts the Missed records
    whose key was never evicted, [long + short] those at or after their
    key's eviction time, so the three counters are non-negative and add up
    to at most the number of Missed records. *)
Theorem main_model_output (bs : list string) (records : list Rec) (evicted : Index)
  (tl : Tally) (lines : list Line) :
  main_model bs = Ok (records, evicted, tl, lines) ->
  Z.of_nat (count_b missed_b records) <= I32_MAX ->
  length lines = S (count_b missed_b records) /\
  last lines = Some (summary_line tl) /\
  none tl = Z.of_nat (count_b (unmatched_b evicted) records) /\
  long tl + short tl = Z.of_nat (count_b (resolved_b evicted) records) /\
  0 <= long tl /\ 0 <= short tl /\
  long tl + short tl + none tl <= Z.of_nat (count_b missed_b records).
Proof.
  unfold main_model. destruct (parse_all bs) as [rs|e]; cbn; [|discriminate].
  destruct (correlate _ (tally0, []) _) as [[tl' out]|e] eqn:Hc; cbn; [|discriminate].
  intros [= <- <- <- <-] _.
  apply correlate_counts in Hc as ((n & -> & Hn) & Hnone & Hsum & Hl & Hs).
  simpl in Hnone, Hsum, Hl, Hs.
  pose proof (count_outcomes_le (evicted_times (sort_by_rev_time rs)) (sort_by_rev_time rs)).
  split; [rewrite !length_app, Hn; simpl; lia|].
  split; [apply last_snoc|].
  lia.
Qed.

Lemma main_model_output_witness :
  exists records evicted tl lines,
    main_model [String.append EVICTED_MARKER (event_line "1" "1" "100" "0");
                String.append MISSED_MARKER
                  (String.append (event_line "1" "1" "150" "0") (event_line "2" "2" "150" "0"))]
      = Ok (records, evicted, tl, lines) /\
    Z.of_nat (count_b missed_b records) <= I32_MAX /\
    length lines = S (count_b missed_b records) /\
    last lines = Some (summary_line tl) /\
    none tl = Z.of_nat (count_b (unmatched_b evicted) records) /\
    long tl + short tl = Z.of_nat (count_b (resolved_b evicted) records) /\
    0 <= long tl /\ 0 <= short tl /\
    long tl + short tl + none tl <= Z.of_nat (count_b missed_b records).
Proof.
  match goal with |- context [main_model ?b] =>
    destruct (main_model b) as [[[[records evicted] tl] lines]|e] eqn:H end;
    [|vm_compute in H; discriminate].
  assert (Hc : Z.of_nat (count_b missed_b records) <= I32_MAX).
  { pose proof H as H'. vm_compute in H'. injection H' as <- _ _ _.
    vm_compute. congruence. }
  exists records, evicted, tl, lines. split; [reflexivity|]. split; [exact Hc|].
  exact (main_model_output _ _ _ _ _ H Hc).
Defined.

(** ** Independence from the order of the input *)

Lemma parse_all_perm (bs1 bs2 : list string) (rs1 : list Rec) :
  Permutation bs1 bs2 -> parse_all bs1 = Ok rs1 ->
  exists rs2, parse_all bs2 = Ok rs2 /\ Permutation rs1 rs2.
Proof.
  intros Hp. revert rs1. induction Hp as [|x l1 l2 Hp IH|x y l|l1 l2 l3 H12 IH12 H23 IH23];
    intros rs1 H.
  - exists rs1. split; [exact H | reflexivity].
  - cbn [parse_all] in *. destruct (parse x) as [rx|e]; cbn in *; [|discriminate].
    destruct (parse_all l1) as [r1|e]; cbn in H; [|discriminate]. injection H as <-.
    destruct (IH r1 eq_refl) as (r2 & -> & Hr). exists (rx ++ r2). cbn.
    split; [reflexivity|]. apply Permutation_app_head, Hr.
  - cbn [parse_all] in *. destruct (parse y) as [ry|e]; cbn in *; [|discriminate].
    destruct (parse x) as [rx|e]; cbn in *; [|discriminate].
    destruct (parse_all l) as [rl|e]; cbn in *; [|discriminate]. injection H as <-.
    exists (rx ++ ry ++ rl). split; [reflexivity|]. apply Permutation_app_swap_app.
  - destruct (IH12 rs1 H) as (r2 & H2 & P12). destruct (IH23 r2 H2) as (r3 & H3 & P23).
    exists r3. split; [exact H3 | etransitivity; eauto].
Qed.

Lemma count_b_perm (f : Rec -> bool) (l1 l2 : list Rec) :
  Permutation l1 l2 -> count_b f l1 = count_b f l2.
Proof.
  unfold count_b. induction 1 as [|x l1 l2 _ IH|x y l|l1 l2 l3 _ IH1 _ IH2];
    cbn [List.filter]; try reflexivity.
  - destruct (f x); simpl; rewrite IH; reflexivity.
  - destruct (f x), (f y); reflexivity.
  - congruence.
Qed.

Lemma evicted_times_sort_perm (l1 l2 : list Rec) :
  Permutation l1 l2 ->
  evicted_times (sort_by_rev_time l1) = evicted_times (sort_by_rev_time l2).
Proof.
  intros Hp. apply map_eq. intros k. unfold evicted_times.
  assert (Hp' : Permutation (sort_by_rev_time l1) (sort_by_rev_time l2)).
  { rewrite (sort_perm l1), (sort_perm l2). exact Hp. }
  destruct (decide (Exists (fun r => rec_op r = Evicted /\ key_of (rec_data r) = k)
                      (sort_by_rev_time l1))) as [Hex | Hnot].
  - apply Exists_exists in Hex as (r & Hr & Hop & Hk). apply list_elem_of_In in Hr.
    destruct (build_index_sorted_some k (sort_by_rev_time l1) ∅ (sort_sorted l1)
                ltac:(eauto)) as (m1 & Hm1 & Hop1 & Hk1 & -> & Hmin1).
    assert (Hr2 : In r (sort_by_rev_time l2)) by (eapply Permutation_in; eauto).
    destruct (build_index_sorted_some k (sort_by_rev_time l2) ∅ (sort_sorted l2)
                ltac:(eauto)) as (m2 & Hm2 & Hop2 & Hk2 & -> & Hmin2).
    f_equal. apply ts_leb_antisym.
    + apply Hmin1; [|assumption..]. eapply Permutation_in; [symmetry; exact Hp' | exact Hm2].
    + apply Hmin2; [|assumption..]. eapply Permutation_in; [exact Hp' | exact Hm1].
  - assert (Hno1 : forall r, In r (sort_by_rev_time l1) -> rec_op r = Evicted ->
                             key_of (rec_data r) <> k).
    { intros r Hr Hop Hk. apply Hnot, Exists_exists.
      exists r; split; [apply list_elem_of_In; exact Hr | auto]. }
    assert (Hno2 : forall r, In r (sort_by_rev_time l2) -> rec_op r = Evicted ->
                             key_of (rec_data r) <> k).
    { intros r Hr. apply Hno1. eapply Permutation_in; [symmetry; exact Hp' | exact Hr]. }
    rewrite (build_index_none k _ _ Hno1), (build_index_none k _ _ Hno2). reflexivity.
Qed.

Lemma correlate_one_tally (idx : Index) (tl : Tally) (out : list Line) (r : Rec)
  (tl' : Tally) (out' : list Line) :
  correlate_one idx (tl, out) r = Ok (tl', out') ->
  tl' = mkTally (long tl + (if long_b idx r then 1 else 0))
                (short tl + (if short_b idx r then 1 else 0))
                (none tl + (if unmatched_b idx r then 1 else 0)).
Proof.
  destruct tl as [l s n], r as [[data t] op].
  unfold long_b, short_b, unmatched_b, rec_op, rec_data, rec_time; simpl.
  destruct op; simpl.
  - intros [= <- _]. f_equal; lia.
  - destruct (idx !! key_of data) as [te|].
    + destruct (ts_ltb t te).
      * destruct (duration_since_unwrap te t) as [d|e]; cbn; [|discriminate].
        intros [= <- _]. f_equal; lia.
      * destruct (duration_since_unwrap t te) as [d|e]; cbn; [|discriminate].
        destruct (secs_f64_lt_10 d); intros [= <- _]; simpl; f_equal; lia.
    + intros [= <- _]. f_equal; lia.
Qed.

(** The counters of a completed loop: [long], [short] and [none] each grow
    by the number of records of their kind. *)
Lemma correlate_tally (idx : Index) (tl : Tally) (out : list Line) (l : list Rec)
  (tl' : Tally) (out' : list Line) :
  correlate idx (tl, out) l = Ok (tl', out') ->
  tl' = mkTally (long tl + Z.of_nat (count_b (long_b idx) l))
                (short tl + Z.of_nat (count_b (short_b idx) l))
                (none tl + Z.of_nat (count_b (unmatched_b idx) l)).
Proof.
  revert tl out; induction l as [|r l IH]; intros tl out H.
  - simpl in H. injection H as <- _. destruct tl; unfold count_b; simpl; f_equal; lia.
  - cbn [correlate] in H.
    destruct (correlate_one idx (tl, out) r) as [[tl1 out1]|e] eqn:E1; cbn in H;
      [|discriminate].
    apply correlate_one_tally in E1. rewrite (IH _ _ H), E1.
    unfold count_b; cbn [List.filter long short none].
    destruct (long_b idx r), (short_b idx r), (unmatched_b idx r);
      cbn [length]; f_equal; lia.
Qed.

(** Reading the same blocks in another order (the CSV files, or their
    rows, in another order) yields the same index and the same three
    counters, and the sorted records differ only in the order of records
    with equal times. *)
Theorem main_model_order_independent (bs1 bs2 : list string)
  (records1 : list Rec) (evicted1 : Index) (tl1 : Tally) (lines1 : list Line) :
  Permutation bs1 bs2 ->
  main_model bs1 = Ok (records1, evicted1, tl1, lines1) ->
  exists records2 lines2,
    main_model bs2 = Ok (records2, evicted1, tl1, lines2) /\
    Permutation records1 records2.
Proof.
  intros Hp. unfold main_model.
  destruct (parse_all bs1) as [rs1|e] eqn:H1; cbn; [|discriminate].
  destruct (parse_all_perm bs1 bs2 rs1 Hp H1) as (rs2 & H2 & Hrs). rewrite H2. cbn.
  destruct (correlate _ (tally0, []) (sort_by_rev_time rs1)) as [[tla outa]|e] eqn:Ha;
    cbn; [|discriminate].
  intros [= <- <- <- <-].
  pose proof (parse_all_valid bs2 rs2 H2) as Hv.
  assert (Hvs : Forall (fun r => valid_time (rec_time r)) (sort_by_rev_time rs2)).
  { eapply Permutation_Forall; [symmetry; apply sort_perm | exact Hv]. }
  assert (Hidx : index_valid (evicted_times (sort_by_rev_time rs2))).
  { apply build_index_valid; [|exact Hvs].
    intros k t Hk. rewrite lookup_empty in Hk. discriminate. }
  destruct (correlate_ok _ (tally0, []) _ Hidx Hvs) as ([tlb outb] & Hb).
  rewrite Hb. cbn.
  assert (Hs : Permutation (sort_by_rev_time rs1) (sort_by_rev_time rs2)).
  { rewrite (sort_perm rs1), (sort_perm rs2). exact Hrs. }
  rewrite <- (evicted_times_sort_perm rs1 rs2 Hrs) in Hb |- *.
  apply correlate_tally in Ha. apply correlate_tally in Hb.
  rewrite !(count_b_perm _ _ _ Hs) in Ha. rewrite <- Hb in Ha. subst tla.
  exists (sort_by_rev_time rs2), (outb ++ [summary_line tlb]).
  split; [reflexivity | exact Hs].
Qed.

Lemma main_model_order_independent_witness :
  exists records1 evicted1 tl1 lines1 records2 lines2,
    main_model [String.append MISSED_MARKER (event_line "1" "1" "150" "0");
                String.append EVICTED_MARKER (event_line "1" "1" "100" "0")]
      = Ok (records1, evicted1, tl1, lines1) /\
    main_model [String.append EVICTED_MARKER (event_line "1" "1" "100" "0");
                String.append MISSED_MARKER (event_line "1" "1" "150" "0")]
      = Ok (records2, evicted1, tl1, lines2) /\
    Permutation records1 records2.
Proof.
  match goal with |- context [main_model (?b1 :: ?b2 :: nil)] =>
    destruct (main_model [b1; b2]) as [[[[records1 evicted1] tl1] lines1]|e] eqn:H;
      [|vm_compute in H; discriminate];
    destruct (main_model_order_independent [b1; b2] [b2; b1] _ _ _ _
                (perm_swap b2 b1 []) H) as (records2 & lines2 & H2 & Hp)
  end.
  exists records1, evicted1, tl1, lines1, records2, lines2.
  split; [reflexivity | split; [exact H2 | exact Hp]].
Defined.

(** ** Time arithmetic *)

Lemma duration_since_cases (a b : SystemTime) :
  valid_time a -> valid_time b ->
  (ts_leb b a = true ->
     exists d, duration_since_unwrap a b = Ok d /\
       dur_ns d = time_ns a - time_ns b /\ 0 <= secs d /\ 0 <= nanos d < NANOS_PER_SEC) /\
  (ts_ltb a b = true -> duration_since_unwrap a b = Err SystemTimeErr).
Proof.
  destruct a as [sa na], b as [sb nb].
  unfold valid_time, I64_MAX, NANOS_PER_SEC; simpl; intros Ha Hb.
  unfold duration_since_unwrap, sub_timespec, sub_ge, duration_new, wrap_u64,
    dur_ns, time_ns, NANOS_PER_SEC; simpl.
  split; intros Hle.
  - rewrite Hle. apply ts_leb_iff in Hle; simpl in Hle.
    destruct (Z.leb_spec nb na).
    + rewrite Z.mod_small by lia.
      destruct (Z.ltb_spec (na - nb) 1000000000); [|lia].
      eexists; split; [reflexivity|simpl; lia].
    + rewrite Z.mod_small by lia.
      destruct (Z.ltb_spec (na + 1000000000 - nb) 1000000000); [|lia].
      eexists; split; [reflexivity|simpl; lia].
  - rewrite ts_ltb_leb in Hle. apply negb_true_iff in Hle. rewrite Hle.
    apply ts_leb_total in Hle. apply ts_leb_iff in Hle; simpl in Hle.
    destruct (Z.leb_spec na nb).
    + rewrite Z.mod_small by lia.
      destruct (Z.ltb_spec (nb - na) 1000000000); [|lia]. reflexivity.
    + rewrite Z.mod_small by lia.
      destruct (Z.ltb_spec (nb + 1000000000 - na) 1000000000); [|lia]. reflexivity.
Qed.

(** [a.duration_since(b).unwrap()] on valid times: the exact difference,
    as a normalised [Duration], when [b <= a]; the [SystemTimeError]
    panic when [a < b]. *)
Theorem duration_since_spec (a b : SystemTime) :
  valid_time a -> valid_time b ->
  (ts_leb b a = true ->
     exists d, duration_since_unwrap a b = Ok d /\
       dur_ns d = time_ns a - time_ns b /\ 0 <= secs d /\ 0 <= nanos d < NANOS_PER_SEC) /\
  (ts_ltb a b = true -> duration_since_unwrap a b = Err SystemTimeErr).
Proof. exact (duration_since_cases a b). Qed.

Lemma duration_since_spec_witness :
  duration_since_unwrap (mkTime 150 0) (mkTime 100 500000000) = Ok (mkDuration 49 500000000) /\
  duration_since_unwrap (mkTime 100 0) (mkTime 150 0) = Err SystemTimeErr.
Proof.
  assert (Ha : valid_time (mkTime 150 0)) by (unfold valid_time, I64_MAX, NANOS_PER_SEC; simpl; lia).
  assert (Hb : valid_time (mkTime 100 500000000))
    by (unfold valid_time, I64_MAX, NANOS_PER_SEC; simpl; lia).
  assert (Hc : valid_time (mkTime 100 0)) by (unfold valid_time, I64_MAX, NANOS_PER_SEC; simpl; lia).
  split.
  - destruct (proj1 (duration_since_spec _ _ Ha Hb) eq_refl) as (d & Hd & _).
    rewrite Hd. vm_compute in Hd. symmetry; exact Hd.
  - exact (proj2 (duration_since_spec _ _ Hc Ha) eq_refl).
Defined.

(** [Duration::new(secs, nanos)] on a u64 and a u32: it panics exactly
    when the carried seconds overflow u64, and otherwise returns a
    normalised duration of the same length. *)
Theorem duration_new_spec (s n : Z) :
  0 <= s <= U64_MAX -> 0 <= n <= U32_MAX ->
  (duration_new s n = Err DurationNewOverflow <-> U64_MAX < s + n / NANOS_PER_SEC) /\
  (forall d, duration_new s n = Ok d ->
     dur_ns d = s * NANOS_PER_SEC + n /\ 0 <= nanos d < NANOS_PER_SEC).
Proof.
  unfold duration_new, dur_ns, U64_MAX, U32_MAX, NANOS_PER_SEC. intros Hs Hn.
  pose proof (Z.div_mod n 1000000000 ltac:(lia)).
  pose proof (Z.mod_pos_bound n 1000000000 ltac:(lia)).
  destruct (Z.ltb_spec n 1000000000).
  - rewrite Z.div_small by lia. split.
    + split; [discriminate | lia].
    + intros d [= <-]. simpl. lia.
  - destruct (Z.leb_spec (s + n / 1000000000) (2 ^ 64 - 1)); split.
    + split; [discriminate | lia].
    + intros d [= <-]. simpl. lia.
    + split; intros; [lia | reflexivity].
    + discriminate.
Qed.

Lemma duration_new_spec_witness :
  duration_new (2 ^ 64 - 1) 4294967295 = Err DurationNewOverflow /\
  duration_new 7 1500000000 = Ok (mkDuration 8 500000000).
Proof.
  split.
  - apply (duration_new_spec (2 ^ 64 - 1) 4294967295);
      unfold U64_MAX, U32_MAX, NANOS_PER_SEC; [lia | lia | reflexivity].
  - destruct (duration_new 7 1500000000) as [d|e] eqn:H.
    + destruct (proj2 (duration_new_spec 7 1500000000
                  ltac:(unfold U64_MAX; lia) ltac:(unfold U32_MAX; lia)) d H) as (Hd & Hn).
      vm_compute in H. symmetry; exact H.
    + vm_compute in H. discriminate.
Defined.

(** [t + d] for a valid time and a normalised duration, when it does not
    panic, is a valid time from which [duration_since] gives [d] back. *)
Theorem add_duration_since (t : SystemTime) (d : Duration) (t' : SystemTime) :
  valid_time t -> 0 <= secs d -> 0 <= nanos d < NANOS_PER_SEC ->
  add_duration t d = Ok t' ->
  valid_time t' /\ duration_since_unwrap t' t = Ok d.
Proof.
  destruct t as [s n], d as [ds dn].
  unfold valid_time, add_duration, I64_MAX, NANOS_PER_SEC; simpl. intros Ht Hds Hdn.
  destruct (Z.ltb_spec (2 ^ 63 - 1) (s + ds)); [discriminate|].
  unfold duration_since_unwrap, sub_timespec, sub_ge, duration_new, wrap_u64, NANOS_PER_SEC.
  destruct (Z.leb_spec 1000000000 (dn + n)).
  - destruct (Z.ltb_spec (2 ^ 63 - 1) (s + ds + 1)); [discriminate|].
    intros [= <-]. split; [simpl; lia|].
    replace (ts_leb (mkTime s n) (mkTime (s + ds + 1) (dn + n - 1000000000))) with true
      by (symmetry; apply ts_leb_iff; simpl; lia).
    cbn -[Z.pow Z.modulo].
    destruct (Z.leb_spec n (dn + n - 1000000000)); [lia|].
    replace (s + ds + 1 - s - 1) with ds by lia. rewrite Z.mod_small by lia.
    replace (dn + n - 1000000000 + 1000000000 - n) with dn by lia.
    destruct (Z.ltb_spec dn 1000000000); [reflexivity | lia].
  - intros [= <-]. split; [simpl; lia|].
    replace (ts_leb (mkTime s n) (mkTime (s + ds) (dn + n))) with true
      by (symmetry; apply ts_leb_iff; simpl; lia).
    cbn -[Z.pow Z.modulo].
    destruct (Z.leb_spec n (dn + n)); [|lia].
    replace (s + ds - s) with ds by lia. rewrite Z.mod_small by lia.
    replace (dn + n - n) with dn by lia.
    destruct (Z.ltb_spec dn 1000000000); [reflexivity | lia].
Qed.

Lemma add_duration_since_witness :
  add_duration UNIX_EPOCH (mkDuration 1700000000 5) = Ok (mkTime 1700000000 5) /\
  duration_since_unwrap (mkTime 1700000000 5) UNIX_EPOCH = Ok (mkDuration 1700000000 5).
Proof.
  assert (H : add_duration UNIX_EPOCH (mkDuration 1700000000 5) = Ok (mkTime 1700000000 5))
    by reflexivity.
  split; [exact H|].
  apply (add_duration_since UNIX_EPOCH (mkDuration 1700000000 5)); [| simpl; lia | simpl; unfold NANOS_PER_SEC; lia | exact H].
  unfold valid_time, I64_MAX, NANOS_PER_SEC; simpl; lia.
Defined.

(** ** The lines of the duration file *)

Lemma correlate_one_line (idx : Index) (tl : Tally) (out : list Line) (r : Rec)
  (tl' : Tally) (out' : list Line) :
  index_valid idx -> valid_time (rec_time r) ->
  correlate_one idx (tl, out) r = Ok (tl', out') ->
  (missed_b r = false /\ out' = out) \/
  (missed_b r = true /\ exists ln, out' = out ++ [ln] /\ missed_line idx r ln).
Proof.
  destruct r as [[data t] op]. unfold missed_b, missed_line, rec_op, rec_data, rec_time; simpl.
  intros Hidx Ht. destruct op; simpl; intros H.
  - injection H as _ <-. left; auto.
  - right. split; [reflexivity|].
    destruct (idx !! key_of data) as [te|] eqn:E.
    + pose proof (Hidx _ _ E) as Hte.
      destruct (ts_ltb t te) eqn:Hlt.
      * destruct (proj1 (duration_since_cases te t Hte Ht) ltac:(ts_order))
          as (d & Hdu & Hd & _).
        rewrite Hdu in H. cbn in H. injection H as _ <-.
        eexists; split; [reflexivity|].
        right; left. exists te, d. auto.
      * assert (Hle : ts_leb te t = true) by ts_order.
        destruct (proj1 (duration_since_cases t te Ht Hte) Hle) as (d & Hdu & Hd & _).
        rewrite Hdu in H. cbn in H.
        destruct (secs_f64_lt_10 d) eqn:Hs; injection H as _ <-;
          (eexists; split; [reflexivity|]); right; right; exists te, d;
          (do 3 (split; [first [reflexivity | assumption]|])); unfold secs_f64_lt_10 in Hs;
          fold (dur_ns d) in Hs; rewrite Hs; reflexivity.
    + injection H as _ <-. eexists; split; [reflexivity|]. left; auto.
Qed.

Lemma correlate_lines (idx : Index) (tl : Tally) (out : list Line) (l : list Rec)
  (tl' : Tally) (out' : list Line) :
  index_valid idx -> Forall (fun r => valid_time (rec_time r)) l ->
  correlate idx (tl, out) l = Ok (tl', out') ->
  exists new, out' = out ++ new /\ Forall2 (missed_line idx) (List.filter missed_b l) new.
Proof.
  intros Hidx. revert tl out; induction l as [|r l IH]; intros tl out Hl H.
  - simpl in H. injection H as _ <-. exists []. rewrite app_nil_r. split; constructor.
  - apply Forall_cons in Hl as [Hr Hl]. cbn [correlate] in H.
    destruct (correlate_one idx (tl, out) r) as [[tl1 out1]|e] eqn:E1; cbn in H;
      [|discriminate].
    destruct (IH _ _ Hl H) as (new & -> & Hnew).
    cbn [List.filter].
    destruct (correlate_one_line _ _ _ _ _ _ Hidx Hr E1)
      as [[-> ->] | [-> (ln & -> & Hln)]].
    + exists new. split; [reflexivity | exact Hnew].
    + exists (ln :: new). rewrite <- app_assoc. split; [reflexivity|].
      constructor; assumption.
Qed.

(** The duration file of a completed run holds, in the sorted order, one
    line per Missed record with its data, its miss time and, when its key
    was evicted, the exact delta to the eviction ("-" before it, and the
    [!!!!!!!!!!] mark when under 10 s after it), then the summary line. *)
Theorem main_model_lines (bs : list string) (records : list Rec) (evicted : Index)
  (tl : Tally) (lines : list Line) :
  main_model bs = Ok (records, evicted, tl, lines) ->
  exists body, lines = body ++ [summary_line tl] /\
    Forall2 (missed_line evicted) (List.filter missed_b records) body.
Proof.
  unfold main_model. destruct (parse_all bs) as [rs|e] eqn:Hp; cbn; [|discriminate].
  destruct (correlate _ (tally0, []) _) as [[tl' out]|e] eqn:Hc; cbn; [|discriminate].
  intros [= <- <- <- <-].
  pose proof (parse_all_valid bs rs Hp) as Hv.
  assert (Hvs : Forall (fun r => valid_time (rec_time r)) (sort_by_rev_time rs)).
  { eapply Permutation_Forall; [symmetry; apply sort_perm | exact Hv]. }
  assert (Hidx : index_valid (evicted_times (sort_by_rev_time rs))).
  { apply build_index_valid; [|exact Hvs].
    intros k t Hk. rewrite lookup_empty in Hk. discriminate. }
  destruct (correlate_lines _ _ _ _ _ _ Hidx Hvs Hc) as (new & -> & Hnew).
  exists new. split; [reflexivity | exact Hnew].
Qed.

Lemma main_model_lines_witness :
  exists records evicted tl lines body,
    main_model [String.append EVICTED_MARKER (event_line "1" "1" "100" "0");
                String.append MISSED_MARKER
                  (String.append (event_line "1" "1" "105" "0") (event_line "2" "2" "150" "0"))]
      = Ok (records, evicted, tl, lines) /\
    lines = body ++ [summary_line tl] /\
    Forall2 (missed_line evicted) (List.filter missed_b records) body.
Proof.
  match goal with |- context [main_model ?b] =>
    destruct (main_model b) as [[[[records evicted] tl] lines]|e] eqn:H end;
    [|vm_compute in H; discriminate].
  destruct (main_model_lines _ _ _ _ _ H) as (body & Hb & Hf).
  exists records, evicted, tl, lines, body. split; [reflexivity | split; assumption].
Defined.
